(** * FEA cable demo (src/FEA/FEA_cable_collide_1_solution.cpp)

    The repository is one driver, [main], that builds a cable of ANCF beam
    elements through the object model of a physics engine, pins its first
    node to a fixed body, hangs a cylinder on its last node, configures the
    solver and then steps the simulation inside the render loop.

    The driver is embedded as a computation in a state-and-error monad over
    a [World]: the objects made with [make_shared] live in stores and are
    named by handles, so that sharing (one material for every element, one
    node for two elements) is sharing of a handle.  [double] values are
    IEEE binary64 floats, as in the source.

    The engine entry points the driver calls are not part of the
    repository; they are modelled from the specification.  The numerical
    content of a time step is left as a parameter ([integrate]).

    Sections 7 and 9 of [main] (visualization assets, window, camera,
    lights) only attach presentation objects that read the mesh; they are
    not represented, except for the two application settings that drive
    the stepping ([SetTimestep], [SetTryRealtime]). *)

From Stdlib Require Import ZArith List Bool Lia Floats Uint63.
Import ListNotations.

Set Warnings "-inexact-float".

Local Open Scope float_scope.

(** ** ChVector<>: three doubles *)

Record ChVector : Type := V { vx : float; vy : float; vz : float }.

(** operator+ (line 178) and operator- on ChVector<>. *)
Definition vadd (a b : ChVector) : ChVector :=
  V (vx a + vx b) (vy a + vy b) (vz a + vz b).

Definition vsub (a b : ChVector) : ChVector :=
  V (vx a - vx b) (vy a - vy b) (vz a - vz b).

(** operator== on ChVector<>: coordinate-wise comparison of doubles. *)
Definition veqb (a b : ChVector) : bool :=
  (vx a =? vx b) && (vy a =? vy b) && (vz a =? vz b).

Definition VNULL : ChVector := V 0 0 0.

(** [double(i)] for an [int] i. *)
Definition double (i : Z) : float :=
  if (i <? 0)%Z then - of_uint63 (Uint63.of_Z (- i)) else of_uint63 (Uint63.of_Z i).

(** ** Objects *)

(** A handle is what a [std::shared_ptr] is in the source: the index of the
    object in the store of its class, in creation order. *)
Definition handle : Type := nat.

(** ChNodeFEAxyzD: position and tangent direction, and the flag that
    [SetFixed] (named in the comment at line 147) would set. *)
Record ChNodeFEAxyzD : Type := mkNode {
  node_pos : ChVector;
  node_dir : ChVector;
  node_fixed : bool
}.

(** ChBeamSectionCable.  A field is [None] until its setter is called: the
    constructor's defaults are not in the repository. *)
Record ChBeamSectionCable : Type := mkSection {
  diameter : option float;
  young_modulus : option float;
  rayleigh_damping : option float
}.

(** ChElementCableANCF: two node handles and a section handle, unset by the
    constructor. *)
Record ChElementCableANCF : Type := mkElement {
  el_nodes : option (handle * handle);
  el_section : option handle
}.

(** The solid that ChBodyEasyCylinder gives its body. *)
Record CylinderShape : Type := mkCylinder {
  cyl_radius : float;
  cyl_height : float;
  cyl_density : float
}.

(** ChBody / ChBodyEasyCylinder.  No call of the driver rotates a body, so
    only the position of the body frame is represented. *)
Record ChBody : Type := mkBody {
  body_pos : ChVector;
  body_fixed : bool;
  body_shape : option CylinderShape;
  body_collide : bool;
  body_visualize : bool
}.

(** ChLinkPointFrame: the node and the body it joins, and the attachment
    point in the coordinates of the body. *)
Record ChLinkPointFrame : Type := mkLink {
  link_node : option handle;
  link_body : option handle;
  link_attach : ChVector
}.

(** ChMesh: the registered nodes and elements, in order of registration. *)
Record ChMesh : Type := mkMesh {
  mesh_nodes : list handle;
  mesh_elements : list handle
}.

Inductive ChSolverType : Type := SOR | MINRES.

Inductive ChTimestepperType : Type := EULER_IMPLICIT_LINEARIZED | HHT.

(** Life cycle of the system (specification, 4.5). *)
Inductive Phase : Type := Uninitialized | Finalized | Stepping | Failed.

(** What finalize records: the first global coordinate of every node of
    every mesh and of every body, the first multiplier of every link, and
    the two totals. *)
Record DofTable : Type := mkDofs {
  node_offsets : list (handle * nat);
  body_offsets : list (handle * nat);
  link_offsets : list (handle * nat);
  n_coords : nat;
  n_constraints : nat
}.

(** ChSystemNSC.  A numeric setting is [None] until the driver sets it; the
    two selectors start at the values the comments at lines 228 and 241
    call the default. *)
Record ChSystemNSC : Type := mkSystem {
  G_acc : option ChVector;
  sys_meshes : list handle;
  sys_bodies : list handle;
  sys_links : list handle;
  solver_type : ChSolverType;
  warm_starting : option bool;
  max_iters_speed : option Z;
  max_iters_stab : option Z;
  tol_force : option float;
  timestepper_type : ChTimestepperType;
  phase : Phase;
  dofs : option DofTable
}.

(** The two settings of ChIrrApp that reach the simulation. *)
Record ChIrrApp : Type := mkApp {
  timestep : option float;
  try_realtime : option bool
}.

(** The engine calls that took effect, oldest first. *)
Inductive event : Type :=
| EvAdd_mesh (m : handle)
| EvAddNode (m n : handle)
| EvAddElement (m e : handle) (el : ChElementCableANCF)
| EvAdd_body (b : handle)
| EvAdd_link (l : handle)
| EvSectionSet (s : handle)
| EvSetSection (e s : handle)
| EvSetupInitial
| EvDoStep.

Record World : Type := mkWorld {
  nodes : list ChNodeFEAxyzD;
  sections : list ChBeamSectionCable;
  elements : list ChElementCableANCF;
  bodies : list ChBody;
  links : list ChLinkPointFrame;
  meshes : list ChMesh;
  system : ChSystemNSC;
  application : ChIrrApp;
  history : list event
}.

(** ** Outcomes and the monad *)

(** The four errors of the specification (section 7), and [Stuck] for what
    C++ or the life cycle leaves undefined: a vector indexed out of range,
    an empty vector's [back()], a handle that names no object, a step asked
    of a system that was never finalized. *)
Inductive error : Type :=
| InvalidGeometry
| InvalidTopology
| SolverNonConvergence
| SingularSystem
| Stuck.

Inductive outcome (A : Type) : Type :=
| Ok (a : A)
| Err (e : error).

Arguments Ok {A} a.
Arguments Err {A} e.

(** A computation returns its outcome and the world it leaves behind; after
    an error the rest of the sequence is skipped. *)
Definition M (A : Type) : Type := World -> outcome A * World.

Definition ret {A} (a : A) : M A := fun w => (Ok a, w).

Definition fail {A} (e : error) : M A := fun w => (Err e, w).

Definition bind {A B} (c : M A) (k : A -> M B) : M B :=
  fun w =>
    match c w with
    | (Ok a, w') => k a w'
    | (Err e, w') => (Err e, w')
    end.

Declare Scope engine_scope.
Delimit Scope engine_scope with engine.
Notation "x <- c ;; k" := (bind c (fun x => k))
  (at level 61, c at next level, right associativity) : engine_scope.
Notation "c ;; k" := (bind c (fun _ => k))
  (at level 61, right associativity) : engine_scope.

Definition get : M World := fun w => (Ok w, w).

Definition put (w' : World) : M unit := fun _ => (Ok tt, w').

Definition modify (f : World -> World) : M unit := fun w => (Ok tt, f w).

Definition lift {A} (o : option A) : M A :=
  match o with
  | Some a => ret a
  | None => fail Stuck
  end.

(** ** Stores *)

(** Replace the object at handle [i]; nothing happens out of range (the
    callers look the handle up first). *)
Fixpoint store_set {A} (l : list A) (i : handle) (x : A) : list A :=
  match l, i with
  | [], _ => []
  | _ :: t, O => x :: t
  | a :: t, S j => a :: store_set t j x
  end.

Definition store_get {A} (l : list A) (i : handle) : option A := nth_error l i.

(** ** Field updates *)

Definition with_nodes (x : list ChNodeFEAxyzD) (w : World) : World :=
  mkWorld x (sections w) (elements w) (bodies w) (links w) (meshes w)
          (system w) (application w) (history w).

Definition with_sections (x : list ChBeamSectionCable) (w : World) : World :=
  mkWorld (nodes w) x (elements w) (bodies w) (links w) (meshes w)
          (system w) (application w) (history w).

Definition with_elements (x : list ChElementCableANCF) (w : World) : World :=
  mkWorld (nodes w) (sections w) x (bodies w) (links w) (meshes w)
          (system w) (application w) (history w).

Definition with_bodies (x : list ChBody) (w : World) : World :=
  mkWorld (nodes w) (sections w) (elements w) x (links w) (meshes w)
          (system w) (application w) (history w).

Definition with_links (x : list ChLinkPointFrame) (w : World) : World :=
  mkWorld (nodes w) (sections w) (elements w) (bodies w) x (meshes w)
          (system w) (application w) (history w).

Definition with_meshes (x : list ChMesh) (w : World) : World :=
  mkWorld (nodes w) (sections w) (elements w) (bodies w) (links w) x
          (system w) (application w) (history w).

Definition with_system (x : ChSystemNSC) (w : World) : World :=
  mkWorld (nodes w) (sections w) (elements w) (bodies w) (links w) (meshes w)
          x (application w) (history w).

Definition with_application (x : ChIrrApp) (w : World) : World :=
  mkWorld (nodes w) (sections w) (elements w) (bodies w) (links w) (meshes w)
          (system w) x (history w).

Definition log (ev : event) (w : World) : World :=
  mkWorld (nodes w) (sections w) (elements w) (bodies w) (links w) (meshes w)
          (system w) (application w) (history w ++ [ev]).

Definition sys_with_G_acc (x : option ChVector) (s : ChSystemNSC) : ChSystemNSC :=
  mkSystem x (sys_meshes s) (sys_bodies s) (sys_links s) (solver_type s)
           (warm_starting s) (max_iters_speed s) (max_iters_stab s)
           (tol_force s) (timestepper_type s) (phase s) (dofs s).

Definition sys_with_meshes (x : list handle) (s : ChSystemNSC) : ChSystemNSC :=
  mkSystem (G_acc s) x (sys_bodies s) (sys_links s) (solver_type s)
           (warm_starting s) (max_iters_speed s) (max_iters_stab s)
           (tol_force s) (timestepper_type s) (phase s) (dofs s).

Definition sys_with_bodies (x : list handle) (s : ChSystemNSC) : ChSystemNSC :=
  mkSystem (G_acc s) (sys_meshes s) x (sys_links s) (solver_type s)
           (warm_starting s) (max_iters_speed s) (max_iters_stab s)
           (tol_force s) (timestepper_type s) (phase s) (dofs s).

Definition sys_with_links (x : list handle) (s : ChSystemNSC) : ChSystemNSC :=
  mkSystem (G_acc s) (sys_meshes s) (sys_bodies s) x (solver_type s)
           (warm_starting s) (max_iters_speed s) (max_iters_stab s)
           (tol_force s) (timestepper_type s) (phase s) (dofs s).

Definition sys_with_solver_type (x : ChSolverType) (s : ChSystemNSC) : ChSystemNSC :=
  mkSystem (G_acc s) (sys_meshes s) (sys_bodies s) (sys_links s) x
           (warm_starting s) (max_iters_speed s) (max_iters_stab s)
           (tol_force s) (timestepper_type s) (phase s) (dofs s).

Definition sys_with_warm_starting (x : option bool) (s : ChSystemNSC) : ChSystemNSC :=
  mkSystem (G_acc s) (sys_meshes s) (sys_bodies s) (sys_links s) (solver_type s)
           x (max_iters_speed s) (max_iters_stab s)
           (tol_force s) (timestepper_type s) (phase s) (dofs s).

Definition sys_with_max_iters_speed (x : option Z) (s : ChSystemNSC) : ChSystemNSC :=
  mkSystem (G_acc s) (sys_meshes s) (sys_bodies s) (sys_links s) (solver_type s)
           (warm_starting s) x (max_iters_stab s)
           (tol_force s) (timestepper_type s) (phase s) (dofs s).

Definition sys_with_max_iters_stab (x : option Z) (s : ChSystemNSC) : ChSystemNSC :=
  mkSystem (G_acc s) (sys_meshes s) (sys_bodies s) (sys_links s) (solver_type s)
           (warm_starting s) (max_iters_speed s) x
           (tol_force s) (timestepper_type s) (phase s) (dofs s).

Definition sys_with_tol_force (x : option float) (s : ChSystemNSC) : ChSystemNSC :=
  mkSystem (G_acc s) (sys_meshes s) (sys_bodies s) (sys_links s) (solver_type s)
           (warm_starting s) (max_iters_speed s) (max_iters_stab s)
           x (timestepper_type s) (phase s) (dofs s).

Definition sys_with_timestepper_type (x : ChTimestepperType) (s : ChSystemNSC)
  : ChSystemNSC :=
  mkSystem (G_acc s) (sys_meshes s) (sys_bodies s) (sys_links s) (solver_type s)
           (warm_starting s) (max_iters_speed s) (max_iters_stab s)
           (tol_force s) x (phase s) (dofs s).

Definition sys_with_phase (x : Phase) (s : ChSystemNSC) : ChSystemNSC :=
  mkSystem (G_acc s) (sys_meshes s) (sys_bodies s) (sys_links s) (solver_type s)
           (warm_starting s) (max_iters_speed s) (max_iters_stab s)
           (tol_force s) (timestepper_type s) x (dofs s).

Definition sys_with_dofs (x : option DofTable) (s : ChSystemNSC) : ChSystemNSC :=
  mkSystem (G_acc s) (sys_meshes s) (sys_bodies s) (sys_links s) (solver_type s)
           (warm_starting s) (max_iters_speed s) (max_iters_stab s)
           (tol_force s) (timestepper_type s) (phase s) x.

Definition on_system (f : ChSystemNSC -> ChSystemNSC) : M unit :=
  modify (fun w => with_system (f (system w)) w).

(** The world before the first statement of [main]: no object, and the
    system as [ChSystemNSC system;] (line 56) constructs it. *)
Definition new_ChSystemNSC : ChSystemNSC :=
  mkSystem None [] [] [] SOR None None None None EULER_IMPLICIT_LINEARIZED
           Uninitialized None.

Definition empty_world : World :=
  mkWorld [] [] [] [] [] [] new_ChSystemNSC (mkApp None None) [].

Local Open Scope engine_scope.

(** ** Constructors ([std::make_shared<T>(...)]) *)

(** Modelled from the spec: the constructors of the engine's classes, which
    are not in the repository.  Each puts a new object at the end of the
    store of its class and returns its handle; the object holds what the
    call passes and nothing else. *)
Definition make_ChMesh : M handle :=
  w <- get ;;
  put (with_meshes (meshes w ++ [mkMesh [] []]) w) ;;
  ret (List.length (meshes w)).

Definition make_ChBeamSectionCable : M handle :=
  w <- get ;;
  put (with_sections (sections w ++ [mkSection None None None]) w) ;;
  ret (List.length (sections w)).

Definition make_ChNodeFEAxyzD (position direction : ChVector) : M handle :=
  w <- get ;;
  put (with_nodes (nodes w ++ [mkNode position direction false]) w) ;;
  ret (List.length (nodes w)).

Definition make_ChElementCableANCF : M handle :=
  w <- get ;;
  put (with_elements (elements w ++ [mkElement None None]) w) ;;
  ret (List.length (elements w)).

(** Modelled from the spec: a rigid body (section 3) as its constructor
    leaves it, free and at the origin. *)
Definition make_ChBody : M handle :=
  w <- get ;;
  put (with_bodies (bodies w ++ [mkBody VNULL false None false false]) w) ;;
  ret (List.length (bodies w)).

Definition make_ChBodyEasyCylinder (radius height density : float)
           (collide visualize : bool) : M handle :=
  w <- get ;;
  put (with_bodies
         (bodies w ++ [mkBody VNULL false
                              (Some (mkCylinder radius height density))
                              collide visualize]) w) ;;
  ret (List.length (bodies w)).

Definition make_ChLinkPointFrame : M handle :=
  w <- get ;;
  put (with_links (links w ++ [mkLink None None VNULL]) w) ;;
  ret (List.length (links w)).

(** ** Settings *)

(** Modelled from the spec: the setters of the configuration surface
    (section 6), which are not in the repository.  Each overwrites one field
    and is allowed in every phase. *)
Definition Set_G_acc (g : ChVector) : M unit :=
  on_system (sys_with_G_acc (Some g)).

Definition SetSolverType (t : ChSolverType) : M unit :=
  on_system (sys_with_solver_type t).

Definition SetSolverWarmStarting (b : bool) : M unit :=
  on_system (sys_with_warm_starting (Some b)).

Definition SetMaxItersSolverSpeed (n : Z) : M unit :=
  on_system (sys_with_max_iters_speed (Some n)).

Definition SetMaxItersSolverStab (n : Z) : M unit :=
  on_system (sys_with_max_iters_stab (Some n)).

Definition SetTolForce (t : float) : M unit :=
  on_system (sys_with_tol_force (Some t)).

Definition SetTimestepperType (t : ChTimestepperType) : M unit :=
  on_system (sys_with_timestepper_type t).

Definition SetTimestep (dt : float) : M unit :=
  modify (fun w => with_application
                     (mkApp (Some dt) (try_realtime (application w))) w).

Definition SetTryRealtime (b : bool) : M unit :=
  modify (fun w => with_application
                     (mkApp (timestep (application w)) (Some b)) w).

(** Modelled from the spec: the three setters of the section (section 3),
    lines 74 to 76; each overwrites one field of the shared object and is
    recorded in the history. *)
Definition SetDiameter (s : handle) (d : float) : M unit :=
  w <- get ;;
  sec <- lift (store_get (sections w) s) ;;
  put (log (EvSectionSet s)
         (with_sections
            (store_set (sections w) s
               (mkSection (Some d) (young_modulus sec) (rayleigh_damping sec)))
            w)).

Definition SetYoungModulus (s : handle) (E : float) : M unit :=
  w <- get ;;
  sec <- lift (store_get (sections w) s) ;;
  put (log (EvSectionSet s)
         (with_sections
            (store_set (sections w) s
               (mkSection (diameter sec) (Some E) (rayleigh_damping sec)))
            w)).

Definition SetBeamRaleyghDamping (s : handle) (r : float) : M unit :=
  w <- get ;;
  sec <- lift (store_get (sections w) s) ;;
  put (log (EvSectionSet s)
         (with_sections
            (store_set (sections w) s
               (mkSection (diameter sec) (young_modulus sec) (Some r)))
            w)).

(** ** Bodies and nodes *)

Definition SetBodyFixed (b : handle) (f : bool) : M unit :=
  w <- get ;;
  body <- lift (store_get (bodies w) b) ;;
  put (with_bodies
         (store_set (bodies w) b
            (mkBody (body_pos body) f (body_shape body) (body_collide body)
                    (body_visualize body))) w).

Definition SetPos (b : handle) (p : ChVector) : M unit :=
  w <- get ;;
  body <- lift (store_get (bodies w) b) ;;
  put (with_bodies
         (store_set (bodies w) b
            (mkBody p (body_fixed body) (body_shape body) (body_collide body)
                    (body_visualize body))) w).

Definition GetPos (n : handle) : M ChVector :=
  w <- get ;;
  node <- lift (store_get (nodes w) n) ;;
  ret (node_pos node).

(** [SetFixed] on a node: the alternative the comment at lines 145-147
    describes (main does not call it). *)
Definition SetFixed (n : handle) (f : bool) : M unit :=
  w <- get ;;
  node <- lift (store_get (nodes w) n) ;;
  put (with_nodes
         (store_set (nodes w) n (mkNode (node_pos node) (node_dir node) f)) w).

(** ** Topology: the calls that finalize locks *)

(** Modelled from the spec: the life cycle of the System (section 3).  The
    topology is open while the system is [Uninitialized] and locked from
    finalize on. *)
Definition locked (w : World) : bool :=
  match phase (system w) with
  | Uninitialized => false
  | _ => true
  end.

(** Modelled from the spec: the engine's guard on topology changes, absent
    from the repository ("Adding nodes/elements/bodies/constraints after
    finalize is an error"; [InvalidTopology]: "rejected, no state
    change"). *)
Definition unlocked : M unit :=
  w <- get ;;
  if locked w then fail InvalidTopology else ret tt.

(** Modelled from the spec: [system.Add(mesh)] (line 64), the engine's
    registration of a mesh. *)
Definition Add_mesh (m : handle) : M unit :=
  unlocked ;;
  w <- get ;;
  _ <- lift (store_get (meshes w) m) ;;
  put (log (EvAdd_mesh m)
         (with_system (sys_with_meshes (sys_meshes (system w) ++ [m]) (system w)) w)).

(** Modelled from the spec: [mesh->AddNode(node)] (line 107), the engine's
    registration of a node in a mesh. *)
Definition AddNode (m n : handle) : M unit :=
  unlocked ;;
  w <- get ;;
  mesh <- lift (store_get (meshes w) m) ;;
  _ <- lift (store_get (nodes w) n) ;;
  put (log (EvAddNode m n)
         (with_meshes
            (store_set (meshes w) m
               (mkMesh (mesh_nodes mesh ++ [n]) (mesh_elements mesh))) w)).

(** Modelled from the spec: [element->SetNodes(a, b)] (line 127), where the
    element receives its two nodes and the engine's geometry check sits
    ("zero-length elements (coincident nodes) are rejected at
    construction"). *)
Definition SetNodes (e a b : handle) : M unit :=
  w <- get ;;
  el <- lift (store_get (elements w) e) ;;
  na <- lift (store_get (nodes w) a) ;;
  nb <- lift (store_get (nodes w) b) ;;
  if veqb (node_pos na) (node_pos nb) then fail InvalidGeometry
  else put (with_elements
              (store_set (elements w) e (mkElement (Some (a, b)) (el_section el)))
              w).

(** [element->SetSection(section)] (line 130): the element keeps the handle
    of the section, not a copy; the call is recorded in the history. *)
Definition SetSection (e s : handle) : M unit :=
  w <- get ;;
  el <- lift (store_get (elements w) e) ;;
  _ <- lift (store_get (sections w) s) ;;
  put (log (EvSetSection e s)
         (with_elements
            (store_set (elements w) e (mkElement (el_nodes el) (Some s))) w)).

(** Modelled from the spec: [mesh->AddElement(element)] (line 133), the
    engine's registration of an element in a mesh. *)
Definition AddElement (m e : handle) : M unit :=
  unlocked ;;
  w <- get ;;
  mesh <- lift (store_get (meshes w) m) ;;
  el <- lift (store_get (elements w) e) ;;
  put (log (EvAddElement m e el)
         (with_meshes
            (store_set (meshes w) m
               (mkMesh (mesh_nodes mesh) (mesh_elements mesh ++ [e]))) w)).

(** Modelled from the spec: [system.Add(body)] (lines 151, 181). *)
Definition Add_body (b : handle) : M unit :=
  unlocked ;;
  w <- get ;;
  _ <- lift (store_get (bodies w) b) ;;
  put (log (EvAdd_body b)
         (with_system (sys_with_bodies (sys_bodies (system w) ++ [b]) (system w)) w)).

(** Modelled from the spec: [system.Add(link)] (lines 156, 194). *)
Definition Add_link (l : handle) : M unit :=
  unlocked ;;
  w <- get ;;
  _ <- lift (store_get (links w) l) ;;
  put (log (EvAdd_link l)
         (with_system (sys_with_links (sys_links (system w) ++ [l]) (system w)) w)).

(** Modelled from the spec: [link->Initialize(node, body)] (lines 155, 193)
    of the point-to-frame constraint (section 4.2).  Without an explicit
    attachment point the link attaches where the node is: the point is the
    node's position in the coordinates of the body. *)
Definition Initialize (l n b : handle) : M unit :=
  w <- get ;;
  _ <- lift (store_get (links w) l) ;;
  node <- lift (store_get (nodes w) n) ;;
  body <- lift (store_get (bodies w) b) ;;
  put (with_links
         (store_set (links w) l
            (mkLink (Some n) (Some b) (vsub (node_pos node) (body_pos body)))) w).

(** Modelled from the spec: the violation of a point-to-frame constraint
    (section 4.2), "node position minus frame-local pickup point
    transformed to world". *)
Definition violation (w : World) (l : handle) : option ChVector :=
  match store_get (links w) l with
  | Some (mkLink (Some n) (Some b) attach) =>
      match store_get (nodes w) n, store_get (bodies w) b with
      | Some node, Some body =>
          Some (vsub (node_pos node) (vadd (body_pos body) attach))
      | _, _ => None
      end
  | _ => None
  end.

(** ** Finalize *)

(** Number the objects of [l] from [from]: each gets the running total as
    its offset and advances it by its own count of coordinates. *)
Fixpoint number (count : handle -> nat) (l : list handle) (from : nat)
  : list (handle * nat) * nat :=
  match l with
  | [] => ([], from)
  | h :: t =>
      let (rest, total) := number count t (from + count h) in
      ((h, from) :: rest, total)
  end.

(** The nodes of every mesh of the system, mesh after mesh. *)
Definition system_nodes (w : World) : list handle :=
  flat_map (fun m => match store_get (meshes w) m with
                     | Some mesh => mesh_nodes mesh
                     | None => []
                     end)
           (sys_meshes (system w)).

(** Modelled from the spec: the coordinates an object brings to the global
    system (section 3): six for a node and for a free body, none for a
    fixed one, three equations for a point-to-frame constraint. *)
Definition node_count (w : World) (n : handle) : nat :=
  match store_get (nodes w) n with
  | Some node => if node_fixed node then 0 else 6
  | None => 0
  end.

Definition body_count (w : World) (b : handle) : nat :=
  match store_get (bodies w) b with
  | Some body => if body_fixed body then 0 else 6
  | None => 0
  end.

Definition link_count (_ : handle) : nat := 3.

(** Modelled from the spec: the assignment of global DOF offsets that
    finalize performs (section 3, "assigns global DOF offsets"): nodes
    first, then bodies; constraints are numbered on their own. *)
Definition assign_offsets (w : World) : DofTable :=
  let (ns, after_nodes) := number (node_count w) (system_nodes w) 0 in
  let (bs, after_bodies) := number (body_count w) (sys_bodies (system w)) after_nodes in
  let (ls, after_links) := number link_count (sys_links (system w)) 0 in
  mkDofs ns bs ls after_bodies after_links.

(** Modelled from the spec: [system.SetupInitial()] (line 274), the
    engine's finalize (section 4.5): it records the offsets and takes an
    [Uninitialized] system to [Finalized]; a later call records them again
    and leaves the phase where it is. *)
Definition SetupInitial : M unit :=
  w <- get ;;
  let ph := match phase (system w) with
            | Uninitialized => Finalized
            | p => p
            end in
  put (log EvSetupInitial
         (with_system
            (sys_with_phase ph (sys_with_dofs (Some (assign_offsets w)) (system w)))
            w)).

(** ** Control flow and containers of the driver *)

(** [for (int i = lo; i < hi; ++i) body], threading what the body
    maintains ([acc]); the loop runs [hi - lo] times. *)
Fixpoint for_count {S} (count : nat) (i : Z) (body : Z -> S -> M S) (acc : S)
  : M S :=
  match count with
  | O => ret acc
  | S count' => acc' <- body i acc ;; for_count count' (i + 1)%Z body acc'
  end.

Definition for_range {S} (lo hi : Z) (body : Z -> S -> M S) (acc : S) : M S :=
  for_count (Z.to_nat (hi - lo)) lo body acc.

(** [v[i]] on a [std::vector]; out of range is undefined in C++. *)
Definition index {A} (v : list A) (i : Z) : M A :=
  if (i <? 0)%Z then fail Stuck else lift (nth_error v (Z.to_nat i)).

(** [v.back()]. *)
Definition back {A} (v : list A) : M A :=
  lift (nth_error v (List.length v - 1)).

(** ** One time step *)

(** What a step rewrites: position and direction of every node, position of
    every body, in store order. *)
Record Kinematics : Type := mkKin {
  kin_nodes : list (ChVector * ChVector);
  kin_bodies : list ChVector
}.

Fixpoint write_back {A K} (upd : A -> K -> A) (l : list A) (ks : list K)
  : list A :=
  match l, ks with
  | a :: l', k :: ks' => upd a k :: write_back upd l' ks'
  | _, _ => l
  end.

Definition move_node (n : ChNodeFEAxyzD) (k : ChVector * ChVector)
  : ChNodeFEAxyzD :=
  mkNode (fst k) (snd k) (node_fixed n).

Definition move_body (b : ChBody) (p : ChVector) : ChBody :=
  mkBody p (body_fixed b) (body_shape b) (body_collide b) (body_visualize b).

Definition advance (k : Kinematics) (w : World) : World :=
  with_bodies (write_back move_body (bodies w) (kin_bodies k))
    (with_nodes (write_back move_node (nodes w) (kin_nodes k)) w).

(** Lines 96 to 98: where node [in_] of [N_nodes] goes on a cable of the
    given length. *)
Definition position (length : float) (N_nodes in_ : Z) : ChVector :=
  V (length * (double in_ / double (N_nodes - 1)))  (* node position, x *)
    0.5                                             (* node position, y *)
    0                                               (* node position, z *).

(** The handles [main] holds in its local variables. *)
Record Locals : Type := mkLocals {
  mesh : handle;
  beam_material : handle;
  beam_nodes : list handle;
  truss : handle;
  constraint_pos : handle;
  cylinder : handle;
  constraint_cyl : handle
}.

Section Driver.

(** The numerical core of a step (assemble, linearize, solve, integrate:
    specification 4.3 to 4.5) belongs to the engine and is a parameter:
    from the world it gives the new kinematics, or [None] when the solve
    finds the system singular. *)
Variable integrate : World -> option Kinematics.

(** Modelled from the spec: [application.DoStep()] (line 289), the
    engine's advance-by-one-step as a transition of the state machine of
    section 4.5.  From [Finalized] or [Stepping] a step that solves
    writes the new kinematics and enters [Stepping]; a singular system
    fails the step with [SingularSystem], applies no update and enters
    [Failed], which halts advancement.  The spec gives a step no
    transition out of [Uninitialized]; the model has none either. *)
Definition DoStep : M unit :=
  w <- get ;;
  match phase (system w) with
  | Finalized | Stepping =>
      match integrate w with
      | Some k =>
          put (log EvDoStep
                 (with_system (sys_with_phase Stepping (system w)) (advance k w)))
      | None =>
          put (with_system (sys_with_phase Failed (system w)) w) ;;
          fail SingularSystem
      end
  | Failed => fail SingularSystem
  | Uninitialized => fail Stuck
  end.

(** Lines 56 to 272: everything [main] does before it marks the
    construction complete. *)
Definition setup : M Locals :=
  (* 1. the physical system *)
  Set_G_acc (V 0 (-9.81) 0) ;;
  (* 2. the mesh *)
  mesh <- make_ChMesh ;;
  Add_mesh mesh ;;
  (* 3. the material *)
  beam_material <- make_ChBeamSectionCable ;;
  SetDiameter beam_material 0.01 ;;
  SetYoungModulus beam_material 0.01e9 ;;
  SetBeamRaleyghDamping beam_material 0.01 ;;
  (* 4. the nodes *)
  let length := 1.2 in
  let N_nodes := 16%Z in
  beam_nodes <-
    for_range 0 N_nodes
      (fun in_ beam_nodes =>
         let position := position length N_nodes in_ in
         let direction := V 1.0 0 0 in
         node <- make_ChNodeFEAxyzD position direction ;;
         AddNode mesh node ;;
         ret (beam_nodes ++ [node]))
      [] ;;
  (* 5. the elements *)
  for_range 0 (N_nodes - 1)
    (fun ie _ =>
       element <- make_ChElementCableANCF ;;
       a <- index beam_nodes ie ;;
       b <- index beam_nodes (ie + 1) ;;
       SetNodes element a b ;;
       SetSection element beam_material ;;
       AddElement mesh element)
    tt ;;
  (* 6. the constraints *)
  truss <- make_ChBody ;;
  SetBodyFixed truss true ;;
  Add_body truss ;;
  constraint_pos <- make_ChLinkPointFrame ;;
  first <- index beam_nodes 0 ;;
  Initialize constraint_pos first truss ;;
  Add_link constraint_pos ;;
  (* exercise 1a: the cylinder *)
  cylinder <- make_ChBodyEasyCylinder 0.02 0.1 1000 true true ;;
  last <- back beam_nodes ;;
  p <- GetPos last ;;
  SetPos cylinder (vadd p (V 0 (-0.05) 0)) ;;
  Add_body cylinder ;;
  (* exercise 1b: the cylinder hangs on the last node *)
  constraint_cyl <- make_ChLinkPointFrame ;;
  last' <- back beam_nodes ;;
  Initialize constraint_cyl last' cylinder ;;
  Add_link constraint_cyl ;;
  (* 8. solver and timestepper *)
  SetSolverType MINRES ;;
  SetSolverWarmStarting true ;;
  SetMaxItersSolverSpeed 200 ;;
  SetMaxItersSolverStab 200 ;;
  SetTolForce 1e-10 ;;
  SetTimestepperType EULER_IMPLICIT_LINEARIZED ;;
  (* 10. the step size *)
  SetTimestep 0.01 ;;
  SetTryRealtime true ;;
  ret (mkLocals mesh beam_material beam_nodes truss constraint_pos cylinder
                constraint_cyl).

(** Lines 276 to 293: [while (application.GetDevice()->run())].  The
    window decides how often the body runs; [frames] is that number.  Of
    the body only [DoStep] touches the simulation. *)
Definition render_loop (frames : nat) : M unit :=
  for_count frames 0 (fun _ _ => DoStep) tt.

(** [main], for a window that stays open for [frames] frames. *)
Definition main (frames : nat) : M Z :=
  _ <- setup ;;
  SetupInitial ;;
  render_loop frames ;;
  ret 0%Z.

End Driver.

(** The world [main] has built when it reaches line 274, and its locals. *)
Definition built : World := snd (setup empty_world).

Arguments built : simpl never.

Definition locals : outcome Locals := fst (setup empty_world).

(** The handles [main] ends up with: objects are numbered in creation
    order within their class. *)
Definition handles : Locals :=
  (mkLocals 0 0 (seq 0 16) 0 0 1 1)%nat.

(** Lines 124 to 133, the body of the element loop, for two given nodes. *)
Definition element_between (mesh section a b : handle) : M unit :=
  element <- make_ChElementCableANCF ;;
  SetNodes element a b ;;
  SetSection element section ;;
  AddElement mesh element.

(** ** Reading the world *)

Definition node_position (w : World) (n : handle) : option ChVector :=
  option_map node_pos (store_get (nodes w) n).

(** The positions of the two nodes of element [e]. *)
Definition endpoints (w : World) (e : handle) : option (ChVector * ChVector) :=
  match store_get (elements w) e with
  | Some (mkElement (Some (a, b)) _) =>
      match node_position w a, node_position w b with
      | Some p, Some q => Some (p, q)
      | _, _ => None
      end
  | _ => None
  end.

(** The constraints of the system that hold node [n], and the bodies they
    join it to. *)
Definition links_on (w : World) (n : handle) : list ChLinkPointFrame :=
  filter (fun lk => match link_node lk with
                    | Some n' => Nat.eqb n' n
                    | None => false
                    end)
         (flat_map (fun l => match store_get (links w) l with
                             | Some lk => [lk]
                             | None => []
                             end)
                   (sys_links (system w))).

Definition bodies_on (w : World) (n : handle) : list handle :=
  flat_map (fun lk => match link_body lk with
                      | Some b => [b]
                      | None => []
                      end)
           (links_on w n).

(** Center of the top face of a ChBodyEasyCylinder: half the height up the
    Y axis of the body, the axis along which line 178 shifts it. *)
Definition cylinder_top_center (b : ChBody) : option ChVector :=
  match body_shape b with
  | Some sh => Some (vadd (body_pos b) (V 0 (cyl_height sh / 2) 0))
  | None => None
  end.

(** The cable scenario: sixteen nodes from x = 0 to x = 1.2 in one mesh of
    the system, every element on one section of diameter 0.01 and Young's
    modulus 1e7, the first node held by exactly one constraint, to a fixed
    body of the system; [free_end] lists the bodies that constraints of
    the system join the last node to. *)
Definition scenario (free_end : list handle) (w : World) (ls : Locals) : Prop :=
  List.length (beam_nodes ls) = 16%nat /\
  In (mesh ls) (sys_meshes (system w)) /\
  option_map mesh_nodes (store_get (meshes w) (mesh ls)) = Some (beam_nodes ls) /\
  (exists first last,
      nth_error (beam_nodes ls) 0%nat = Some first /\
      nth_error (beam_nodes ls) 15%nat = Some last /\
      node_position w first = Some (V 0 0.5 0) /\
      node_position w last = Some (V 1.2 0.5 0) /\
      bodies_on w first = [truss ls] /\
      In (truss ls) (sys_bodies (system w)) /\
      option_map body_fixed (store_get (bodies w) (truss ls)) = Some true /\
      bodies_on w last = free_end) /\
  store_get (sections w) (beam_material ls)
    = Some (mkSection (Some 0.01) (Some 1e7) (Some 0.01)) /\
  (exists msh, store_get (meshes w) (mesh ls) = Some msh /\
               List.length (mesh_elements msh) = 15%nat /\
               Forall (fun e => option_map el_section (store_get (elements w) e)
                                = Some (Some (beam_material ls)))
                      (mesh_elements msh)).

(** The geometry of the fifteen elements: element [e] joins the nodes placed
    at [position 1.2 16 e] and [position 1.2 16 (e + 1)], which compare
    different, lie at y = 0.5 and z = 0, and whose distance along x
    satisfies [gap]. *)
Definition cable_geometry (gap : float -> Prop) (w : World) : Prop :=
  forall e : nat, (e < 15)%nat ->
    let p := position 1.2 16 (Z.of_nat e) in
    let q := position 1.2 16 (Z.of_nat e + 1) in
    endpoints w e = Some (p, q) /\
    veqb p q = false /\
    gap (vx q - vx p) /\
    vy p = 0.5 /\ vz p = 0 /\ vy q = 0.5 /\ vz q = 0.

(** ** Reading the history *)

Definition is_topology (ev : event) : bool :=
  match ev with
  | EvAdd_mesh _ | EvAddNode _ _ | EvAddElement _ _ _ | EvAdd_body _
  | EvAdd_link _ => true
  | _ => false
  end.

Definition is_AddNode (m n : handle) (ev : event) : bool :=
  match ev with
  | EvAddNode m' n' => Nat.eqb m' m && Nat.eqb n' n
  | _ => false
  end.

(** Every element registered in [h] names two nodes that were registered in
    the same mesh earlier ([seen] is what came before [h]). *)
Fixpoint nodes_precede (seen h : list event) : bool :=
  match h with
  | [] => true
  | ev :: rest =>
      match ev with
      | EvAddElement m _ el =>
          match el_nodes el with
          | Some (a, b) =>
              existsb (is_AddNode m a) seen && existsb (is_AddNode m b) seen
          | None => false
          end
      | _ => true
      end && nodes_precede (seen ++ [ev]) rest
  end.

(** No section is written in [h] once an element refers to it ([shared]
    lists the sections referred to before [h]). *)
Fixpoint frozen (shared : list handle) (h : list event) : bool :=
  match h with
  | [] => true
  | EvSetSection _ s :: rest => frozen (s :: shared) rest
  | EvSectionSet s :: rest => negb (existsb (Nat.eqb s) shared) && frozen shared rest
  | _ :: rest => frozen shared rest
  end.

Definition is_finalize (ev : event) : bool :=
  match ev with
  | EvSetupInitial => true
  | _ => false
  end.

(** A history respects the life cycle when it holds one finalize and every
    change of topology comes before it. *)
Definition lifecycle_respected (h : list event) : Prop :=
  List.length (filter is_finalize h) = 1%nat /\
  forall pre ev post,
    h = pre ++ ev :: post -> is_topology ev = true ->
    In EvSetupInitial post /\ ~ In EvSetupInitial pre.

(** Modelled from the spec: the invariant of a section (section 3),
    "diameter > 0, Young's modulus > 0, damping >= 0". *)
Definition valid_section (s : ChBeamSectionCable) : bool :=
  match diameter s, young_modulus s, rayleigh_damping s with
  | Some d, Some E, Some r => (0 <? d) && (0 <? E) && (0 <=? r)
  | _, _, _ => false
  end.

(** What finalize and the time steps leave alone: every object but the
    kinematics of nodes and bodies, and every field of the system but the
    phase and the offsets. *)
Definition same_model (w w' : World) : Prop :=
  sections w' = sections w /\
  elements w' = elements w /\
  links w' = links w /\
  meshes w' = meshes w /\
  application w' = application w /\
  sys_with_phase Uninitialized (sys_with_dofs None (system w'))
  = sys_with_phase Uninitialized (sys_with_dofs None (system w)) /\
  map node_fixed (nodes w') = map node_fixed (nodes w) /\
  map (fun b => (body_fixed b, body_shape b)) (bodies w')
  = map (fun b => (body_fixed b, body_shape b)) (bodies w).

(** ** The driver for other cables

    [main] fixes the two locals of lines 92 and 93, [length] and [N_nodes];
    everything after them is written in terms of the two.  The definitions
    below are the same statements with the two locals as parameters. *)

(** Lines 94 to 111: the node loop.  It returns [beam_nodes]. *)
Definition create_nodes (length : float) (N_nodes : Z) (mesh : handle)
  : M (list handle) :=
  for_range 0 N_nodes
    (fun in_ beam_nodes =>
       let position := position length N_nodes in_ in
       let direction := V 1.0 0 0 in
       node <- make_ChNodeFEAxyzD position direction ;;
       AddNode mesh node ;;
       ret (beam_nodes ++ [node]))
    [].

(** The range of [int]. *)
Definition INT_MIN : Z := -2147483648.

Definition INT_MAX : Z := 2147483647.

(** What an [int] computation leaves when its exact result is [z]: the 32
    bits of two's complement.  Inside the range nothing changes; outside
    it the C++ standard leaves the result undefined and the compiled
    program wraps around. *)
Definition int_wrap (z : Z) : Z :=
  (z + 2147483648) mod 4294967296 - 2147483648.

(** [a - b] on [int]. *)
Definition int_sub (a b : Z) : Z := int_wrap (a - b).

(** Lines 122 to 134: the element loop.  Its bound [N_nodes - 1] is an
    [int] subtraction.  Neither [ie + 1] nor [++ie] can leave the range,
    since [ie] stays below that bound. *)
Definition create_elements (N_nodes : Z) (mesh beam_material : handle)
           (beam_nodes : list handle) : M unit :=
  for_range 0 (int_sub N_nodes 1)
    (fun ie _ =>
       element <- make_ChElementCableANCF ;;
       a <- index beam_nodes ie ;;
       b <- index beam_nodes (ie + 1) ;;
       SetNodes element a b ;;
       SetSection element beam_material ;;
       AddElement mesh element)
    tt.

(** Lines 56 to 272 for a cable of the given length and number of nodes. *)
Definition setup_of (length : float) (N_nodes : Z) : M Locals :=
  Set_G_acc (V 0 (-9.81) 0) ;;
  mesh <- make_ChMesh ;;
  Add_mesh mesh ;;
  beam_material <- make_ChBeamSectionCable ;;
  SetDiameter beam_material 0.01 ;;
  SetYoungModulus beam_material 0.01e9 ;;
  SetBeamRaleyghDamping beam_material 0.01 ;;
  beam_nodes <- create_nodes length N_nodes mesh ;;
  create_elements N_nodes mesh beam_material beam_nodes ;;
  truss <- make_ChBody ;;
  SetBodyFixed truss true ;;
  Add_body truss ;;
  constraint_pos <- make_ChLinkPointFrame ;;
  first <- index beam_nodes 0 ;;
  Initialize constraint_pos first truss ;;
  Add_link constraint_pos ;;
  cylinder <- make_ChBodyEasyCylinder 0.02 0.1 1000 true true ;;
  last <- back beam_nodes ;;
  p <- GetPos last ;;
  SetPos cylinder (vadd p (V 0 (-0.05) 0)) ;;
  Add_body cylinder ;;
  constraint_cyl <- make_ChLinkPointFrame ;;
  last' <- back beam_nodes ;;
  Initialize constraint_cyl last' cylinder ;;
  Add_link constraint_cyl ;;
  SetSolverType MINRES ;;
  SetSolverWarmStarting true ;;
  SetMaxItersSolverSpeed 200 ;;
  SetMaxItersSolverStab 200 ;;
  SetTolForce 1e-10 ;;
  SetTimestepperType EULER_IMPLICIT_LINEARIZED ;;
  SetTimestep 0.01 ;;
  SetTryRealtime true ;;
  ret (mkLocals mesh beam_material beam_nodes truss constraint_pos cylinder
                constraint_cyl).

(** The nodes the node loop creates, in order. *)
Definition new_nodes (length : float) (N_nodes : Z) (from : Z) (count : nat)
  : list ChNodeFEAxyzD :=
  map (fun j => mkNode (position length N_nodes (from + Z.of_nat j)) (V 1 0 0) false)
      (seq 0 count).

(** The elements the element loop creates from [beam_nodes], in order:
    element [k] joins entries [k] and [k + 1]. *)
Definition chain (beam_nodes : list handle) (beam_material : handle)
           (from count : nat) : list ChElementCableANCF :=
  map (fun j => mkElement (Some (nth (from + j)%nat beam_nodes O,
                                 nth (S (from + j)) beam_nodes O))
                          (Some beam_material))
      (seq 0 count).

(** What the element loop adds to the history: for each element, its
    [SetSection] and its registration. *)
Definition chain_events (mesh : handle) (beam_nodes : list handle)
           (beam_material : handle) (first_element from count : nat)
  : list event :=
  flat_map (fun j => [EvSetSection (first_element + j)%nat beam_material;
                      EvAddElement mesh (first_element + j)%nat
                        (mkElement (Some (nth (from + j)%nat beam_nodes O,
                                          nth (S (from + j)) beam_nodes O))
                                   (Some beam_material))])
           (seq 0 count).

(** The world once the nodes [created] have been made and registered, in
    order, in mesh [m], whose record was [msh]. *)
Definition with_new_nodes (w : World) (m : handle) (msh : ChMesh)
           (created : list ChNodeFEAxyzD) : World :=
  let hs := seq (List.length (nodes w)) (List.length created) in
  mkWorld (nodes w ++ created) (sections w) (elements w) (bodies w) (links w)
          (store_set (meshes w) m
             (mkMesh (mesh_nodes msh ++ hs) (mesh_elements msh)))
          (system w) (application w)
          (history w ++ map (EvAddNode m) hs).

(** The world once the element loop has made [count] elements over
    [beam_nodes] and registered them in mesh [m], whose record was [msh]. *)
Definition with_new_elements (w : World) (m : handle) (msh : ChMesh)
           (beam_nodes : list handle) (beam_material : handle)
           (from count : nat) : World :=
  let first_element := List.length (elements w) in
  mkWorld (nodes w) (sections w)
          (elements w ++ chain beam_nodes beam_material from count)
          (bodies w) (links w)
          (store_set (meshes w) m
             (mkMesh (mesh_nodes msh)
                     (mesh_elements msh ++ seq first_element count)))
          (system w) (application w)
          (history w
           ++ chain_events m beam_nodes beam_material first_element from count).

(** A small world to try the loops on: one registered mesh, one section,
    and the three nodes of a cable of length 2. *)
Definition three_nodes : World :=
  snd ((m <- make_ChMesh ;;
        Add_mesh m ;;
        _ <- make_ChBeamSectionCable ;;
        create_nodes 2 3 m) empty_world).

(** The phases from which a step has a transition (specification, 4.5). *)
Definition steppable (w : World) : Prop :=
  phase (system w) = Finalized \/ phase (system w) = Stepping.

(** Whether element [el] has node [h] at one of its two ends. *)
Definition mentions (h : handle) (el : ChElementCableANCF) : bool :=
  match el_nodes el with
  | Some (a, b) => Nat.eqb a h || Nat.eqb b h
  | None => false
  end.

(** ** Proof steps *)

(** Two doubles that a comparison tells apart are different. *)
Ltac differ_by test :=
  let H := fresh in
  intro H; apply (f_equal test) in H; vm_compute in H; discriminate H.

(** Close a goal about the world [main] has built by running [main]. *)
Ltac by_run := vm_compute; first [reflexivity | tauto].

(** ** The driver runs *)

Lemma setup_runs : setup empty_world = (Ok handles, built).
Proof. vm_compute. reflexivity. Qed.

Lemma SetupInitial_eq (w : World) :
  SetupInitial w
  = (Ok tt,
     log EvSetupInitial
       (with_system
          (sys_with_phase match phase (system w) with
                          | Uninitialized => Finalized
                          | p => p
                          end
                          (sys_with_dofs (Some (assign_offsets w)) (system w)))
          w)).
Proof. reflexivity. Qed.

Lemma same_model_refl (w : World) : same_model w w.
Proof. repeat split. Qed.

Lemma same_model_trans (w1 w2 w3 : World) :
  same_model w1 w2 -> same_model w2 w3 -> same_model w1 w3.
Proof.
  unfold same_model.
  intros (A1 & A2 & A3 & A4 & A5 & A6 & A7 & A8)
         (B1 & B2 & B3 & B4 & B5 & B6 & B7 & B8).
  repeat split; congruence.
Qed.

Lemma write_back_keeps {A K B} (upd : A -> K -> A) (f : A -> B) :
  (forall a k, f (upd a k) = f a) ->
  forall l ks, map f (write_back upd l ks) = map f l.
Proof.
  intros Hupd l; induction l as [|a l IH]; intros [|k ks]; cbn; try reflexivity.
  now rewrite Hupd, IH.
Qed.

Lemma advance_same_model (k : Kinematics) (w : World) :
  same_model w (advance k w).
Proof.
  unfold same_model, advance; cbn.
  repeat split; apply write_back_keeps; now intros [] ?.
Qed.

Lemma SetupInitial_same_model (w : World) :
  same_model w (snd (SetupInitial w)).
Proof. rewrite SetupInitial_eq; now destruct w as [? ? ? ? ? ? [] ? ?]. Qed.

(** A step either solves, or fails with [SingularSystem] and touches
    neither the objects nor the history. *)
Lemma DoStep_cases (integrate : World -> option Kinematics) (w : World) :
  locked w = true ->
  (exists k,
      DoStep integrate w
      = (Ok tt, log EvDoStep
                  (with_system (sys_with_phase Stepping (system w)) (advance k w))))
  \/ (fst (DoStep integrate w) = Err SingularSystem
      /\ same_model w (snd (DoStep integrate w))
      /\ nodes (snd (DoStep integrate w)) = nodes w
      /\ bodies (snd (DoStep integrate w)) = bodies w
      /\ history (snd (DoStep integrate w)) = history w
      /\ locked (snd (DoStep integrate w)) = true
      /\ dofs (system (snd (DoStep integrate w))) = dofs (system w)).
Proof.
  unfold locked, DoStep, bind, get; cbn.
  destruct w as [ns ss es bs ls ms sy ap h]; cbn.
  destruct sy as [g m b l st ws i1 i2 tl ts ph d]; cbn.
  destruct ph; intros Hl; try discriminate.
  1, 2: destruct (integrate _) as [k|]; [left; exists k; reflexivity|].
  all: right; cbn; repeat split.
Qed.

Lemma step_same_model (k : Kinematics) (w : World) :
  same_model w (log EvDoStep
                  (with_system (sys_with_phase Stepping (system w)) (advance k w))).
Proof.
  apply same_model_trans with (advance k w); [apply advance_same_model|].
  destruct w as [? ? ? ? ? ? [] ? ?]; repeat split.
Qed.

(** The render loop from a finalized system: some number of steps take
    effect, and nothing but kinematics and phase changes. *)
Lemma render_loop_runs (integrate : World -> option Kinematics) :
  forall (frames : nat) (i : Z) (w : World),
    locked w = true ->
    exists k,
      (k <= frames)%nat /\
      let r := for_count frames i (fun _ _ => DoStep integrate) tt w in
      same_model w (snd r) /\
      history (snd r) = history w ++ repeat EvDoStep k /\
      locked (snd r) = true /\
      dofs (system (snd r)) = dofs (system w) /\
      (fst r = Ok tt \/ fst r = Err SingularSystem).
Proof.
  induction frames as [|n IH]; intros i w Hl.
  - exists 0%nat; cbn. rewrite app_nil_r.
    refine (conj (Nat.le_refl _) (conj (same_model_refl w) (conj eq_refl (conj Hl (conj eq_refl _))))).
    now left.
  - assert (E : for_count (S n) i (fun _ _ => DoStep integrate) tt w
               = match DoStep integrate w with
                 | (Ok _, w1) => for_count n (i + 1)%Z (fun _ _ => DoStep integrate) tt w1
                 | (Err e, w1) => (Err e, w1)
                 end).
    { cbn [for_count]. unfold bind. now destruct (DoStep integrate w) as [[[]|e] w1]. }
    cbn zeta. rewrite E. clear E.
    destruct (DoStep_cases integrate w Hl) as [(k & Hk) | (He & Hm & _ & _ & Hh & Hl' & Hd)].
    + rewrite Hk.
      set (w1 := log EvDoStep _).
      assert (Hl1 : locked w1 = true) by reflexivity.
      destruct (IH (i + 1)%Z w1 Hl1) as (j & Hj & Hm & Hh & Hl2 & Hd & Hr).
      exists (S j); split; [lia|]. cbn zeta in *.
      refine (conj _ (conj _ (conj Hl2 (conj _ Hr)))).
      * eapply same_model_trans; [apply (step_same_model k w)|exact Hm].
      * rewrite Hh. subst w1. cbn. now rewrite <- app_assoc.
      * rewrite Hd. subst w1. now destruct w as [? ? ? ? ? ? [] ? ?].
    + exists 0%nat; split; [lia|].
      destruct (DoStep integrate w) as [[[]|e] w1]; cbn in *; try discriminate.
      injection He as ->. rewrite app_nil_r.
      refine (conj Hm (conj Hh (conj Hl' (conj Hd _)))). now right.
Qed.

Lemma SetupInitial_history (w : World) :
  history (snd (SetupInitial w)) = history w ++ [EvSetupInitial].
Proof. reflexivity. Qed.

Lemma SetupInitial_dofs (w : World) :
  dofs (system (snd (SetupInitial w))) = Some (assign_offsets w).
Proof. reflexivity. Qed.

Lemma SetupInitial_locked (w : World) : locked (snd (SetupInitial w)) = true.
Proof.
  rewrite SetupInitial_eq. unfold locked. cbn. now destruct (phase (system w)).
Qed.

(** [main] for any engine core and any number of frames: it builds the
    model, finalizes it once, and then only steps. *)
Lemma main_runs (integrate : World -> option Kinematics) (frames : nat) :
  exists k,
    (k <= frames)%nat /\
    let r := main integrate frames empty_world in
    same_model built (snd r) /\
    history (snd r) = history built ++ EvSetupInitial :: repeat EvDoStep k /\
    locked (snd r) = true /\
    dofs (system (snd r)) = Some (assign_offsets built) /\
    (fst r = Ok 0%Z \/ fst r = Err SingularSystem).
Proof.
  assert (E : main integrate frames empty_world
              = match for_count frames 0%Z (fun _ _ => DoStep integrate) tt
                        (snd (SetupInitial built)) with
                | (Ok _, w2) => (Ok 0%Z, w2)
                | (Err e, w2) => (Err e, w2)
                end).
  { unfold main, render_loop. unfold bind at 1. rewrite setup_runs.
    unfold bind at 1. rewrite SetupInitial_eq. unfold bind. cbn [snd].
    now destruct (for_count frames 0%Z _ tt _) as [[[]|e] w2]. }
  destruct (render_loop_runs integrate frames 0%Z (snd (SetupInitial built))
                             (SetupInitial_locked built))
    as (k & Hk & Hm & Hh & Hl & Hd & Hr).
  exists k; split; [exact Hk|]. cbn zeta in *. rewrite E. clear E.
  rewrite SetupInitial_history, <- app_assoc in Hh.
  rewrite SetupInitial_dofs in Hd.
  pose proof (same_model_trans _ _ _ (SetupInitial_same_model built) Hm) as Hm'.
  destruct (for_count frames 0%Z _ tt _) as [[[]|e] w2]; cbn [fst snd] in *.
  all: refine (conj Hm' (conj Hh (conj Hl (conj Hd _)))).
  - now left.
  - destruct Hr as [Hr|Hr]; [discriminate|injection Hr as ->; now right].
Qed.

(** A field of the system other than the phase and the offsets reads the
    same in two worlds with the same model. *)
Lemma same_model_system {A} (f : ChSystemNSC -> A) (w w' : World) :
  (forall s, f (sys_with_phase Uninitialized (sys_with_dofs None s)) = f s) ->
  same_model w w' -> f (system w') = f (system w).
Proof.
  intros Hf (_ & _ & _ & _ & _ & Hs & _).
  rewrite <- (Hf (system w')), <- (Hf (system w)). now rewrite Hs.
Qed.

(** ** The scenario [main] builds *)

(** C1, as stated, fails: the specification's end-to-end scenario leaves the
    free end of the cable without a body, but a constraint of the system
    joins the last node to the cylinder (lines 192 to 194). *)
Lemma C1_free_end_is_attached : ~ scenario [] built handles.
Proof.
  intros (_ & _ & _ & (first & last & _ & Hl & _ & _ & _ & _ & _ & Hfree) & _).
  vm_compute in Hl. injection Hl as <-.
  vm_compute in Hfree. discriminate Hfree.
Qed.

(** C1, amended: [main] builds the cable of the end-to-end scenario (16
    nodes, from x = 0 to x = 1.2, diameter 0.01, Young's modulus 1e7, first
    node held by a constraint to the fixed truss) with its free end joined
    to one body of the system, the cylinder of radius 0.02, height 0.1 and
    density 1000, which is not fixed. *)
Theorem C1_cable_with_cylinder :
  fst (setup empty_world) = Ok handles /\
  scenario [cylinder handles] built handles /\
  In (cylinder handles) (sys_bodies (system built)) /\
  option_map (fun b => (body_fixed b, body_shape b))
             (store_get (bodies built) (cylinder handles))
  = Some (false, Some (mkCylinder 0.02 0.1 1000)).
Proof.
  split; [now rewrite setup_runs|].
  split; [|split; [by_run|by_run]].
  unfold scenario.
  split; [by_run|]. split; [by_run|]. split; [by_run|].
  split.
  { exists 0%nat, 15%nat.
    do 7 (split; [by_run|]). by_run. }
  split; [by_run|].
  exists (mkMesh (seq 0 16) (seq 0 15)).
  split; [by_run|]. split; [by_run|].
  repeat (constructor; [by_run|]).
  constructor.
Qed.

(** C2: whatever the engine core does and however long the window stays
    open, the system [main] leaves behind has gravity (0, -9.81, 0),
    time step 0.01, 200 solver iterations (for both the speed and the
    stabilization solve), force tolerance 1e-10, the linearized implicit
    Euler timestepper and warm starting on. *)
Theorem C2_configuration (integrate : World -> option Kinematics) (frames : nat) :
  let w := snd (main integrate frames empty_world) in
  G_acc (system w) = Some (V 0 (-9.81) 0) /\
  timestep (application w) = Some 0.01 /\
  max_iters_speed (system w) = Some 200%Z /\
  max_iters_stab (system w) = Some 200%Z /\
  tol_force (system w) = Some 1e-10 /\
  timestepper_type (system w) = EULER_IMPLICIT_LINEARIZED /\
  warm_starting (system w) = Some true.
Proof.
  destruct (main_runs integrate frames) as (k & _ & Hm & _).
  cbn zeta in *.
  set (w := snd (main integrate frames empty_world)) in *.
  pose proof Hm as (_ & _ & _ & _ & Happ & _).
  rewrite Happ.
  rewrite (same_model_system G_acc built w (fun s => eq_refl) Hm).
  rewrite (same_model_system max_iters_speed built w (fun s => eq_refl) Hm).
  rewrite (same_model_system max_iters_stab built w (fun s => eq_refl) Hm).
  rewrite (same_model_system tol_force built w (fun s => eq_refl) Hm).
  rewrite (same_model_system timestepper_type built w (fun s => eq_refl) Hm).
  rewrite (same_model_system warm_starting built w (fun s => eq_refl) Hm).
  clear. do 6 (split; [by_run|]). by_run.
Qed.

(** ** Geometry *)

(** C8, as stated, fails: the third element spans x = 0.16 to
    x = 0.23999999999999999 (the doubles 1.2 * (2 / 15.) and
    1.2 * (3 / 15.)), and their difference is not the double 0.08. *)
Lemma C8_spacing_is_not_exact : ~ cable_geometry (fun g => g = 0.08) built.
Proof.
  intro H. destruct (H 2%nat ltac:(lia)) as (_ & _ & Hg & _).
  revert Hg. differ_by (fun g => g =? 0.08).
Qed.

(** C8, amended: [main] runs to line 274 without an error, and each of the
    15 elements joins two nodes whose positions compare different: they
    lie at y = 0.5 and z = 0, and their distance along x is 1.2/15 = 0.08
    up to the rounding of doubles (it lies strictly between
    0.0799999999999998 and 0.0800000000000002).  The check of [SetNodes]
    therefore never raises [InvalidGeometry] in this run. *)
Theorem C8_elements_have_length :
  fst (setup empty_world) = Ok handles /\
  cable_geometry (fun g => (0.0799999999999998 <? g) = true
                           /\ (g <? 0.0800000000000002) = true) built /\
  1.2 / double 15 = 0.08.
Proof.
  split; [now rewrite setup_runs|]. split; [|by_run].
  intros e He.
  do 15 (destruct e as [|e]; [cbn zeta; do 6 (split; [by_run|]); by_run|]).
  lia.
Qed.

(** C9: line 178 puts the center of the cylinder at the position of the
    last node shifted by (0, -0.05, 0), and 0.05 is half the height of
    the cylinder; the center of its top face is then exactly the position of
    the node, and the constraint that joins the node to the cylinder
    starts with violation (0, 0, 0). *)
Theorem C9_cylinder_hangs_from_last_node :
  exists last node cyl sh,
    nth_error (beam_nodes handles) 15 = Some last /\
    store_get (nodes built) last = Some node /\
    store_get (bodies built) (cylinder handles) = Some cyl /\
    body_shape cyl = Some sh /\
    cyl_height sh / 2 = 0.05 /\
    body_pos cyl = vadd (node_pos node) (V 0 (- (cyl_height sh / 2)) 0) /\
    cylinder_top_center cyl = Some (node_pos node) /\
    option_map (fun lk => (link_node lk, link_body lk))
               (store_get (links built) (constraint_cyl handles))
    = Some (Some last, Some (cylinder handles)) /\
    In (constraint_cyl handles) (sys_links (system built)) /\
    violation built (constraint_cyl handles) = Some VNULL.
Proof.
  exists 15%nat, (mkNode (V 1.2 0.5 0) (V 1 0 0) false),
         (mkBody (V 1.2 0.45 0) false (Some (mkCylinder 0.02 0.1 1000)) true true),
         (mkCylinder 0.02 0.1 1000).
  do 9 (split; [by_run|]). by_run.
Qed.

(** ** Zero-length elements *)

Lemma store_get_new {A} (l : list A) (x : A) :
  store_get (l ++ [x]) (List.length l) = Some x.
Proof.
  unfold store_get. rewrite nth_error_app2 by lia. now rewrite Nat.sub_diag.
Qed.

Lemma SetNodes_coincident (w : World) (e a b : handle)
      (el : ChElementCableANCF) (na nb : ChNodeFEAxyzD) :
  store_get (elements w) e = Some el ->
  store_get (nodes w) a = Some na ->
  store_get (nodes w) b = Some nb ->
  veqb (node_pos na) (node_pos nb) = true ->
  SetNodes e a b w = (Err InvalidGeometry, w).
Proof.
  intros He Ha Hb Hv. unfold SetNodes, bind, get.
  rewrite He. cbn [lift ret]. rewrite Ha. cbn [lift ret]. rewrite Hb.
  cbn [lift ret]. now rewrite Hv.
Qed.

(** C5: when the two nodes compare equal in position, [SetNodes] fails with
    [InvalidGeometry] and changes nothing at all; the element loop's body
    (create, set nodes, set section, add to the mesh) then fails with
    [InvalidGeometry] too, and leaves every mesh, the nodes, the system and
    the history as they were (the one trace is the element object that
    [make_shared] created, which no mesh refers to). *)
Theorem C5_zero_length_rejected (w : World) (m s a b : handle)
        (na nb : ChNodeFEAxyzD) :
  store_get (nodes w) a = Some na ->
  store_get (nodes w) b = Some nb ->
  veqb (node_pos na) (node_pos nb) = true ->
  (forall e el, store_get (elements w) e = Some el ->
                SetNodes e a b w = (Err InvalidGeometry, w)) /\
  fst (element_between m s a b w) = Err InvalidGeometry /\
  meshes (snd (element_between m s a b w)) = meshes w /\
  nodes (snd (element_between m s a b w)) = nodes w /\
  system (snd (element_between m s a b w)) = system w /\
  history (snd (element_between m s a b w)) = history w /\
  elements (snd (element_between m s a b w)) = elements w ++ [mkElement None None].
Proof.
  intros Ha Hb Hv.
  split; [intros e el He; now apply SetNodes_coincident with el na nb|].
  set (w1 := with_elements (elements w ++ [mkElement None None]) w).
  assert (E : element_between m s a b w = (Err InvalidGeometry, w1)).
  { unfold element_between. unfold bind at 1.
    change (make_ChElementCableANCF w) with (Ok (List.length (elements w)), w1).
    cbn iota beta. unfold bind at 1.
    rewrite (SetNodes_coincident w1 _ a b (mkElement None None) na nb);
      auto using store_get_new. apply (store_get_new (elements w)). }
  rewrite E. repeat split.
Qed.

(** A world in which C5 applies: the mesh [main] has built, and an element
    asked for between node 3 and itself. *)
Lemma C5_zero_length_rejected_witness :
  (forall e el, store_get (elements built) e = Some el ->
                SetNodes e 3%nat 3%nat built = (Err InvalidGeometry, built)) /\
  fst (element_between 0%nat 0%nat 3%nat 3%nat built) = Err InvalidGeometry /\
  meshes (snd (element_between 0%nat 0%nat 3%nat 3%nat built)) = meshes built /\
  nodes (snd (element_between 0%nat 0%nat 3%nat 3%nat built)) = nodes built /\
  system (snd (element_between 0%nat 0%nat 3%nat 3%nat built)) = system built /\
  history (snd (element_between 0%nat 0%nat 3%nat 3%nat built)) = history built /\
  elements (snd (element_between 0%nat 0%nat 3%nat 3%nat built))
  = elements built ++ [mkElement None None].
Proof.
  apply (C5_zero_length_rejected built 0%nat 0%nat 3%nat 3%nat
           (mkNode (V 0.23999999999999999 0.5 0) (V 1 0 0) false)
           (mkNode (V 0.23999999999999999 0.5 0) (V 1 0 0) false)).
  - vm_compute. reflexivity.
  - vm_compute. reflexivity.
  - vm_compute. reflexivity.
Defined.

(** ** Finalize *)

Lemma number_ext (c c' : handle -> nat) :
  (forall h, c h = c' h) ->
  forall l from, number c l from = number c' l from.
Proof.
  intros Hc l; induction l as [|h t IH]; intros from; cbn; [reflexivity|].
  now rewrite Hc, IH.
Qed.

Lemma same_model_node_count (w w' : World) (n : handle) :
  same_model w w' -> node_count w' n = node_count w n.
Proof.
  intros (_ & _ & _ & _ & _ & _ & Hn & _).
  apply (f_equal (fun l => nth_error l n)) in Hn.
  rewrite !nth_error_map in Hn. unfold node_count, store_get.
  destruct (nth_error (nodes w') n), (nth_error (nodes w) n);
    cbn in Hn; try discriminate; [|reflexivity].
  injection Hn as ->. reflexivity.
Qed.

Lemma same_model_body_count (w w' : World) (b : handle) :
  same_model w w' -> body_count w' b = body_count w b.
Proof.
  intros (_ & _ & _ & _ & _ & _ & _ & Hb).
  apply (f_equal (fun l => nth_error l b)) in Hb.
  rewrite !nth_error_map in Hb. unfold body_count, store_get.
  destruct (nth_error (bodies w') b), (nth_error (bodies w) b);
    cbn in Hb; try discriminate; [|reflexivity].
  injection Hb as -> _. reflexivity.
Qed.

(** The offsets depend on the model only, not on kinematics, phase or
    history. *)
Lemma same_model_offsets (w w' : World) :
  same_model w w' -> assign_offsets w' = assign_offsets w.
Proof.
  intros Hm. unfold assign_offsets, system_nodes.
  pose proof Hm as (_ & _ & _ & Hms & _).
  rewrite Hms.
  rewrite (same_model_system sys_meshes w w' (fun s => eq_refl) Hm).
  rewrite (same_model_system sys_bodies w w' (fun s => eq_refl) Hm).
  rewrite (same_model_system sys_links w w' (fun s => eq_refl) Hm).
  rewrite (number_ext (node_count w') (node_count w)
             (fun n => same_model_node_count w w' n Hm)).
  destruct (number (node_count w) _ 0) as [ns after_nodes].
  rewrite (number_ext (body_count w') (body_count w)
             (fun b => same_model_body_count w w' b Hm)).
  reflexivity.
Qed.

(** C7: finalize always succeeds, and a second finalize records the very
    offsets the first one recorded, whether it follows at once or after any
    number of time steps (which change no topology). *)
Theorem C7_finalize_idempotent (w : World) :
  let w1 := snd (SetupInitial w) in
  fst (SetupInitial w) = Ok tt /\
  fst (SetupInitial w1) = Ok tt /\
  dofs (system w1) = Some (assign_offsets w) /\
  dofs (system (snd (SetupInitial w1))) = dofs (system w1) /\
  forall (integrate : World -> option Kinematics) (frames : nat),
    let w2 := snd (for_count frames 0%Z (fun _ _ => DoStep integrate) tt w1) in
    dofs (system (snd (SetupInitial w2))) = dofs (system w1).
Proof.
  cbn zeta. split; [reflexivity|]. split; [reflexivity|].
  split; [reflexivity|]. split.
  - rewrite !SetupInitial_dofs.
    now rewrite (same_model_offsets w _ (SetupInitial_same_model w)).
  - intros integrate frames.
    destruct (render_loop_runs integrate frames 0%Z (snd (SetupInitial w))
                               (SetupInitial_locked w))
      as (k & _ & Hm & _).
    cbn zeta in Hm. rewrite !SetupInitial_dofs.
    now rewrite (same_model_offsets w _
                   (same_model_trans _ _ _ (SetupInitial_same_model w) Hm)).
Qed.

(** ** The life cycle *)

Lemma locked_rejects {A} (k : unit -> M A) (w : World) :
  locked w = true -> bind unlocked k w = (Err InvalidTopology, w).
Proof. intros H. unfold unlocked, bind, get. now rewrite H. Qed.

Lemma filter_repeat_DoStep (f : event -> bool) (k : nat) :
  f EvDoStep = false -> filter f (repeat EvDoStep k) = [].
Proof. intros H; induction k; cbn; [reflexivity|]. now rewrite H. Qed.

Lemma In_repeat_DoStep (ev : event) (k : nat) :
  In ev (repeat EvDoStep k) -> ev = EvDoStep.
Proof. intros H. now apply repeat_spec in H. Qed.

(** A history made of calls without finalize, one finalize, and steps. *)
Lemma lifecycle_shape (h : list event) (k : nat) :
  forallb (fun ev => negb (is_finalize ev)) h = true ->
  lifecycle_respected (h ++ EvSetupInitial :: repeat EvDoStep k).
Proof.
  intros Hh. split.
  - rewrite filter_app. cbn.
    rewrite (filter_repeat_DoStep is_finalize k eq_refl).
    replace (filter is_finalize h) with (@nil event); [reflexivity|].
    symmetry. induction h as [|x h IH]; [reflexivity|].
    cbn in *. apply andb_prop in Hh as [Hx Hh].
    destruct (is_finalize x); [discriminate|]. now apply IH.
  - assert (Hno : forall l, (exists l', h = l ++ l') -> ~ In EvSetupInitial l).
    { intros l (l' & ->) Hin. rewrite forallb_app in Hh.
      apply andb_prop in Hh as [Hh _].
      rewrite forallb_forall in Hh. now specialize (Hh _ Hin). }
    intros pre ev post E Hev.
    apply app_eq_app in E as (l & [(E1 & E2) | (E1 & E2)]).
    + destruct l as [|x l]; cbn in E2.
      * injection E2 as -> _. discriminate Hev.
      * injection E2 as <- ->. split.
        -- apply in_or_app. right. now left.
        -- apply Hno. now exists (ev :: l).
    + destruct l as [|x l]; cbn in E2.
      * injection E2 as <- _. discriminate Hev.
      * injection E2 as <- E2.
        assert (Hin : In ev (repeat EvDoStep k))
          by (rewrite E2; apply in_or_app; right; now left).
        apply In_repeat_DoStep in Hin. subst ev. discriminate Hev.
Qed.

(** C3.  The driver: whatever the engine core does and however many frames
    are drawn, the history of [main] holds exactly one finalize, its 36
    additions (1 mesh, 16 nodes, 15 elements, 2 bodies, 2 constraints) all
    come before it, and the system ends locked.  The engine: in a locked
    system each of the five additions fails with [InvalidTopology] and
    leaves the world as it was, and neither a finalize nor a time step
    unlocks it. *)
Theorem C3_topology_locked_by_finalize :
  (forall (integrate : World -> option Kinematics) (frames : nat),
      let w := snd (main integrate frames empty_world) in
      lifecycle_respected (history w) /\
      List.length (filter is_topology (history w)) = 36%nat /\
      locked w = true) /\
  (forall w : World,
      locked w = true ->
      forall m n e b l : handle,
        Add_mesh m w = (Err InvalidTopology, w) /\
        AddNode m n w = (Err InvalidTopology, w) /\
        AddElement m e w = (Err InvalidTopology, w) /\
        Add_body b w = (Err InvalidTopology, w) /\
        Add_link l w = (Err InvalidTopology, w)) /\
  (forall (w : World) (integrate : World -> option Kinematics),
      locked w = true ->
      locked (snd (SetupInitial w)) = true /\
      locked (snd (DoStep integrate w)) = true).
Proof.
  split; [|split].
  - intros integrate frames.
    destruct (main_runs integrate frames) as (k & _ & _ & Hh & Hl & _).
    cbn zeta in *. rewrite Hh. split; [|split; [|exact Hl]].
    + apply lifecycle_shape. by_run.
    + rewrite filter_app. cbn [filter is_topology].
      rewrite (filter_repeat_DoStep is_topology k eq_refl), app_nil_r. by_run.
  - intros w Hl m n e b l.
    unfold Add_mesh, AddNode, AddElement, Add_body, Add_link.
    refine (conj _ (conj _ (conj _ (conj _ _)))); now apply locked_rejects.
  - intros w integrate Hl. split; [apply SetupInitial_locked|].
    destruct (DoStep_cases integrate w Hl) as [(k & ->) | (_ & _ & _ & _ & _ & H & _)];
      [reflexivity|exact H].
Qed.

(** ** Order of registration *)

Lemma is_AddNode_sound (m n : handle) (seen : list event) :
  existsb (is_AddNode m n) seen = true -> In (EvAddNode m n) seen.
Proof.
  intros H. apply existsb_exists in H as (ev & Hin & Hev).
  destruct ev; try discriminate. cbn in Hev.
  apply andb_prop in Hev as [Hm Hn].
  apply Nat.eqb_eq in Hm, Hn. now subst.
Qed.

Lemma nodes_precede_sound :
  forall (h seen : list event),
    nodes_precede seen h = true ->
    forall pre post m e el,
      h = pre ++ EvAddElement m e el :: post ->
      exists a b, el_nodes el = Some (a, b)
                  /\ In (EvAddNode m a) (seen ++ pre)
                  /\ In (EvAddNode m b) (seen ++ pre).
Proof.
  induction h as [|x h IH]; intros seen Hc pre post m e el E.
  - now destruct pre.
  - cbn in Hc. apply andb_prop in Hc as [Hx Hc].
    destruct pre as [|y pre]; cbn in E; injection E as -> ->.
    + destruct (el_nodes el) as [[a b]|]; [|discriminate].
      apply andb_prop in Hx as [Ha Hb].
      exists a, b. rewrite app_nil_r.
      auto using is_AddNode_sound.
    + destruct (IH _ Hc pre post m e el eq_refl) as (a & b & Hn & Ha & Hb).
      exists a, b. rewrite <- app_assoc in Ha, Hb. auto.
Qed.

Lemma nodes_precede_app (l1 l2 seen : list event) :
  nodes_precede seen (l1 ++ l2)
  = nodes_precede seen l1 && nodes_precede (seen ++ l1) l2.
Proof.
  revert seen; induction l1 as [|x l1 IH]; intros seen; cbn.
  - now rewrite app_nil_r.
  - now rewrite IH, <- app_assoc, andb_assoc.
Qed.

Lemma nodes_precede_steps (k : nat) :
  forall seen, nodes_precede seen (repeat EvDoStep k) = true.
Proof. induction k as [|k IH]; intros seen; cbn; [reflexivity|apply IH]. Qed.

(** C4: at every point of any run of [main] where an element is registered
    in a mesh, the element names two nodes, and both were registered in
    that mesh earlier in the run. *)
Theorem C4_nodes_registered_before_elements
        (integrate : World -> option Kinematics) (frames : nat)
        (pre post : list event) (m e : handle) (el : ChElementCableANCF) :
  history (snd (main integrate frames empty_world))
  = pre ++ EvAddElement m e el :: post ->
  exists a b, el_nodes el = Some (a, b)
              /\ In (EvAddNode m a) pre
              /\ In (EvAddNode m b) pre.
Proof.
  destruct (main_runs integrate frames) as (k & _ & _ & Hh & _).
  cbn zeta in Hh. rewrite Hh. intros E.
  refine (nodes_precede_sound _ [] _ pre post m e el E).
  rewrite nodes_precede_app. apply andb_true_intro. split; [by_run|].
  cbn [nodes_precede andb]. apply nodes_precede_steps.
Qed.

(** The run of [main] with a window that closes at once, cut at the
    registration of the third element (between nodes 2 and 3). *)
Lemma C4_nodes_registered_before_elements_witness :
  exists a b,
    el_nodes (mkElement (Some (2, 3)%nat) (Some 0%nat)) = Some (a, b)
    /\ In (EvAddNode 0%nat a) (firstn 25 (history built))
    /\ In (EvAddNode 0%nat b) (firstn 25 (history built)).
Proof.
  apply (C4_nodes_registered_before_elements
           (fun _ => None) 0%nat
           (firstn 25 (history built))
           (skipn 26 (history built) ++ [EvSetupInitial])
           0%nat 2%nat (mkElement (Some (2, 3)%nat) (Some 0%nat))).
  vm_compute. reflexivity.
Defined.

(** ** The section *)

Lemma frozen_sound :
  forall (h : list event) (shared : list handle),
    frozen shared h = true ->
    forall pre post s,
      h = pre ++ EvSectionSet s :: post ->
      ~ In s shared /\ forall e, ~ In (EvSetSection e s) pre.
Proof.
  induction h as [|x h IH]; intros shared Hc pre post s E.
  - now destruct pre.
  - destruct pre as [|y pre]; cbn in E; injection E as -> ->.
    + cbn in Hc. apply andb_prop in Hc as [Hs _]. split; [|now intros e []].
      intros Hin. apply negb_true_iff in Hs.
      assert (existsb (Nat.eqb s) shared = true); [|congruence].
      apply existsb_exists. exists s. split; [exact Hin|apply Nat.eqb_refl].
    + assert (Hrest : exists shared',
                 frozen shared' (pre ++ EvSectionSet s :: post) = true
                 /\ (forall t, In t shared -> In t shared')
                 /\ (forall e, y = EvSetSection e s -> In s shared')).
      { destruct y; cbn in Hc;
          try (exists shared; split; [exact Hc|split; [auto|discriminate]]).
        - apply andb_prop in Hc as [_ Hc].
          exists shared; split; [exact Hc|split; [auto|discriminate]].
        - exists (s0 :: shared). split; [exact Hc|]. split; [now right|].
          intros e0 [= _ ->]. now left. }
      destruct Hrest as (shared' & Hc' & Hsub & Hy).
      destruct (IH _ Hc' pre post s eq_refl) as [Hns Hpre].
      split; [auto|].
      intros e [->|Hin]; [apply Hns, (Hy e eq_refl)|now apply (Hpre e)].
Qed.

Lemma frozen_app_steps (h : list event) (k : nat) :
  forall shared,
    frozen shared h = true ->
    frozen shared (h ++ EvSetupInitial :: repeat EvDoStep k) = true.
Proof.
  induction h as [|x h IH]; intros shared Hc.
  - cbn. induction k; [reflexivity|assumption].
  - destruct x; cbn in *; auto.
    apply andb_prop in Hc as [Hs Hc]. rewrite Hs. cbn. auto.
Qed.

(** C6: in any run of [main] there is one section object; it has diameter
    0.01, Young's modulus 1e7 and damping 0.01, which satisfy the
    invariant of a section; each of the 15 elements of the mesh holds its
    handle; and it is immutable from the moment it is shared: no setter of
    a section is called once an element refers to that section. *)
Theorem C6_one_section_shared
        (integrate : World -> option Kinematics) (frames : nat) :
  let w := snd (main integrate frames empty_world) in
  sections w = [mkSection (Some 0.01) (Some 1e7) (Some 0.01)] /\
  Forall (fun s => valid_section s = true) (sections w) /\
  (exists msh,
      store_get (meshes w) (mesh handles) = Some msh /\
      List.length (mesh_elements msh) = 15%nat /\
      Forall (fun e => option_map el_section (store_get (elements w) e)
                       = Some (Some (beam_material handles)))
             (mesh_elements msh)) /\
  (forall pre post s,
      history w = pre ++ EvSectionSet s :: post ->
      forall e, ~ In (EvSetSection e s) pre).
Proof.
  destruct (main_runs integrate frames) as (k & _ & Hm & Hh & _).
  cbn zeta in *.
  destruct Hm as (Hs & He & _ & Hms & _).
  rewrite Hs, He, Hms, Hh. clear.
  assert (Hsec : sections built = [mkSection (Some 0.01) (Some 1e7) (Some 0.01)])
    by by_run.
  rewrite Hsec.
  split; [reflexivity|].
  split; [constructor; [by_run|constructor]|].
  split.
  - exists (mkMesh (seq 0 16) (seq 0 15)).
    split; [by_run|]. split; [by_run|].
    repeat (constructor; [by_run|]). constructor.
  - intros pre post s E.
    refine (proj2 (frozen_sound _ [] _ pre post s E)).
    apply frozen_app_steps. by_run.
Qed.

(** ** The ground attachment *)

Lemma same_model_links_on (w w' : World) (n : handle) :
  same_model w w' -> links_on w' n = links_on w n.
Proof.
  intros Hm. unfold links_on.
  rewrite (same_model_system sys_links w w' (fun s => eq_refl) Hm).
  destruct Hm as (_ & _ & -> & _). reflexivity.
Qed.

Lemma store_get_set {A} (l : list A) (i : handle) (a x : A) :
  store_get l i = Some a -> store_get (store_set l i x) i = Some x.
Proof.
  revert i; induction l as [|y l IH]; intros [|i]; cbn; try discriminate; auto.
Qed.

Lemma write_back_body_same (l : list ChBody) :
  write_back move_body l (map body_pos l) = l.
Proof.
  induction l as [|b l IH]; cbn; [reflexivity|]. rewrite IH. now destruct b.
Qed.

Lemma write_back_node_pos (l : list ChNodeFEAxyzD) :
  forall ks, map fst ks = map node_pos l ->
             map node_pos (write_back move_node l ks) = map node_pos l.
Proof.
  induction l as [|n l IH]; intros [|k ks] H; cbn in *; try discriminate;
    [reflexivity|].
  injection H as Hk Hks. now rewrite Hk, IH.
Qed.

(** The violation of a constraint reads positions only: new kinematics
    that keeps every position, whatever it does to the directions, leaves
    the violation of every constraint as it was. *)
Lemma violation_reads_positions (w : World) (k : Kinematics) :
  map fst (kin_nodes k) = map node_pos (nodes w) ->
  kin_bodies k = map body_pos (bodies w) ->
  forall l, violation (advance k w) l = violation w l.
Proof.
  intros Hn Hb l. unfold violation.
  assert (Hl : links (advance k w) = links w) by reflexivity.
  assert (Hb' : bodies (advance k w) = bodies w).
  { change (bodies (advance k w))
      with (write_back move_body (bodies w) (kin_bodies k)).
    rewrite Hb. apply write_back_body_same. }
  assert (Hn' : map node_pos (nodes (advance k w)) = map node_pos (nodes w)).
  { change (nodes (advance k w))
      with (write_back move_node (nodes w) (kin_nodes k)).
    now apply write_back_node_pos. }
  rewrite Hl, Hb'.
  destruct (store_get (links w) l) as [[[n|] [b|] attach]|]; try reflexivity.
  apply (f_equal (fun x => nth_error x n)) in Hn'.
  rewrite !nth_error_map in Hn'. unfold store_get.
  destruct (nth_error (nodes (advance k w)) n) as [n1|],
           (nth_error (nodes w) n) as [n2|]; cbn in Hn'; try discriminate;
    [|reflexivity].
  injection Hn' as ->. reflexivity.
Qed.

(** C10: in any run of [main] the first node is not fixed and is held by one
    constraint, the point-to-frame constraint to the truss, which is a
    fixed body.  That constraint is on the position and not on the
    direction: kinematics that changes directions only leaves the violation
    of every constraint of the system as it was, whereas with the first
    node at [p] the violation of this constraint is [p] minus the anchor
    on the truss.  At finalize the first node keeps its six coordinates
    (the second node starts at offset 6) and the two constraints bring six
    equations; after [SetFixed(true)] on the first node, the alternative of
    the comment at line 147, the node would bring no coordinate at all, the
    three of its direction included (the second node would start at
    offset 0). *)
Theorem C10_ground_attachment_holds_position_only
        (integrate : World -> option Kinematics) (frames : nat) :
  let w := snd (main integrate frames empty_world) in
  links_on w 0%nat = [mkLink (Some 0%nat) (Some (truss handles)) (V 0 0.5 0)] /\
  option_map node_fixed (store_get (nodes w) 0%nat) = Some false /\
  (exists tb,
      store_get (bodies w) (truss handles) = Some tb /\
      body_fixed tb = true /\
      forall (p d : ChVector) (rest : list (ChVector * ChVector)),
        violation (advance (mkKin ((p, d) :: rest) (map body_pos (bodies w))) w)
                  (constraint_pos handles)
        = Some (vsub p (vadd (body_pos tb) (V 0 0.5 0)))) /\
  (forall k : Kinematics,
      map fst (kin_nodes k) = map node_pos (nodes w) ->
      kin_bodies k = map body_pos (bodies w) ->
      forall l, violation (advance k w) l = violation w l) /\
  option_map (fun t => (firstn 2 (node_offsets t), n_constraints t))
             (dofs (system w))
  = Some ([(0, 0); (1, 6)]%nat, 6%nat) /\
  firstn 2 (node_offsets (assign_offsets (snd (SetFixed 0%nat true built))))
  = [(0, 0); (1, 0)]%nat.
Proof.
  destruct (main_runs integrate frames) as (k & _ & Hm & _ & _ & Hd & _).
  cbn zeta in *.
  set (w := snd (main integrate frames empty_world)) in *.
  assert (Hnodes : exists n0 tl, nodes w = n0 :: tl /\ node_fixed n0 = false).
  { pose proof Hm as (_ & _ & _ & _ & _ & _ & Hn & _).
    assert (Hb : map node_fixed (nodes built) = repeat false 16) by by_run.
    rewrite Hb in Hn.
    destruct (nodes w) as [|n0 tl]; [discriminate Hn|].
    exists n0, tl. split; [reflexivity|]. now injection Hn. }
  destruct Hnodes as (n0 & tl & Hnodes & Hfree).
  assert (Hbodies : exists tb, store_get (bodies w) 0%nat = Some tb
                               /\ body_fixed tb = true).
  { pose proof Hm as (_ & _ & _ & _ & _ & _ & _ & Hb).
    assert (Hb0 : map (fun b => (body_fixed b, body_shape b)) (bodies built)
                  = [(true, None); (false, Some (mkCylinder 0.02 0.1 1000))])
      by by_run.
    rewrite Hb0 in Hb.
    destruct (bodies w) as [|tb bs]; [discriminate Hb|].
    exists tb. split; [reflexivity|]. now injection Hb. }
  destruct Hbodies as (tb & Htb & Hfixed).
  assert (Hlink : store_get (links w) 0%nat
                  = Some (mkLink (Some 0%nat) (Some 0%nat) (V 0 0.5 0))).
  { destruct Hm as (_ & _ & -> & _). by_run. }
  split; [rewrite (same_model_links_on built w 0%nat Hm); by_run|].
  split; [now rewrite Hnodes; cbn; rewrite Hfree|].
  split; [|split; [|split]].
  - exists tb. change (truss handles) with 0%nat.
    change (constraint_pos handles) with 0%nat.
    split; [exact Htb|]. split; [exact Hfixed|].
    intros p d rest. unfold violation.
    change (links (advance (mkKin ((p, d) :: rest) (map body_pos (bodies w))) w))
      with (links w).
    rewrite Hlink.
    change (bodies (advance (mkKin ((p, d) :: rest) (map body_pos (bodies w))) w))
      with (write_back move_body (bodies w) (map body_pos (bodies w))).
    rewrite write_back_body_same, Htb.
    change (nodes (advance (mkKin ((p, d) :: rest) (map body_pos (bodies w))) w))
      with (write_back move_node (nodes w) ((p, d) :: rest)).
    rewrite Hnodes. reflexivity.
  - apply violation_reads_positions.
  - rewrite Hd. clear. by_run.
  - clear. by_run.
Qed.

(** * Other cables: the driver with [length] and [N_nodes] as parameters *)

(** [main]'s own construction is the instance with the values of lines 92
    and 93. *)
Lemma setup_of_source : setup = setup_of 1.2 16.
Proof. reflexivity. Qed.

Lemma store_set_same {A} (l : list A) (i : handle) (a : A) :
  store_get l i = Some a -> store_set l i a = l.
Proof.
  revert i; induction l as [|y l IH]; intros [|i]; cbn; try discriminate; auto.
  - now intros [= ->].
  - intros H. now rewrite IH.
Qed.

Lemma store_set_twice {A} (l : list A) (i : handle) (x y : A) :
  store_set (store_set l i x) i y = store_set l i y.
Proof.
  revert i; induction l as [|z l IH]; intros [|i]; cbn; auto. now rewrite IH.
Qed.

Lemma store_set_new {A} (l : list A) (x y : A) :
  store_set (l ++ [x]) (List.length l) y = l ++ [y].
Proof. induction l as [|z l IH]; cbn; [reflexivity|now rewrite IH]. Qed.

(** Unfold the engine calls on an explicit world. *)
Ltac run_calls :=
  cbv beta iota zeta delta
      [bind get put ret fail modify lift unlocked locked
       make_ChNodeFEAxyzD make_ChElementCableANCF
       AddNode AddElement SetNodes SetSection
       with_nodes with_elements with_meshes with_system log
       with_new_nodes with_new_elements
       nodes sections elements bodies links meshes system application history].

(** One turn of the node loop. *)
Lemma node_loop_turn (length : float) (N_nodes : Z) (m : handle)
      (in_ : Z) (beam_nodes : list handle) (w : World) (msh : ChMesh) :
  locked w = false ->
  store_get (meshes w) m = Some msh ->
  (node <- make_ChNodeFEAxyzD (position length N_nodes in_) (V 1.0 0 0) ;;
   AddNode m node ;;
   ret (beam_nodes ++ [node])) w
  = (Ok (beam_nodes ++ [List.length (nodes w)]),
     with_new_nodes w m msh [mkNode (position length N_nodes in_) (V 1 0 0) false]).
Proof.
  intros Hl Hm. destruct w as [ns ss es bs ls ms sy ap h].
  revert Hl Hm. run_calls. intros Hl Hm.
  destruct (phase sy); try discriminate Hl.
  rewrite Hm, store_get_new. reflexivity.
Qed.

Lemma with_new_nodes_nil (w : World) (m : handle) (msh : ChMesh) :
  store_get (meshes w) m = Some msh -> with_new_nodes w m msh [] = w.
Proof.
  intros Hm. destruct w as [ns ss es bs ls ms sy ap h].
  unfold with_new_nodes; cbn in *. rewrite !app_nil_r.
  destruct msh as [mn me]; cbn. now rewrite (store_set_same ms m _ Hm).
Qed.

Lemma with_new_nodes_cons (w : World) (m : handle) (msh : ChMesh)
      (nd : ChNodeFEAxyzD) (rest : list ChNodeFEAxyzD) :
  with_new_nodes (with_new_nodes w m msh [nd]) m
                 (mkMesh (mesh_nodes msh ++ [List.length (nodes w)])
                         (mesh_elements msh))
                 rest
  = with_new_nodes w m msh (nd :: rest).
Proof.
  destruct w as [ns ss es bs ls ms sy ap h]. unfold with_new_nodes; cbn.
  rewrite store_set_twice, length_app, Nat.add_1_r, <- !app_assoc. reflexivity.
Qed.

Lemma new_nodes_succ (length : float) (N_nodes i : Z) (n : nat) :
  new_nodes length N_nodes i (S n)
  = mkNode (position length N_nodes i) (V 1 0 0) false
    :: new_nodes length N_nodes (i + 1) n.
Proof.
  unfold new_nodes. cbn [seq map]. rewrite Z.add_0_r. f_equal.
  rewrite <- seq_shift, map_map. apply map_ext. intros j.
  now replace (i + Z.of_nat (S j))%Z with (i + 1 + Z.of_nat j)%Z by lia.
Qed.

(** The node loop from any turn on. *)
Lemma node_loop_runs (length : float) (N_nodes : Z) (m : handle) :
  forall (n : nat) (i : Z) (acc : list handle) (w : World) (msh : ChMesh),
    locked w = false ->
    store_get (meshes w) m = Some msh ->
    for_count n i
      (fun in_ beam_nodes =>
         let position := position length N_nodes in_ in
         let direction := V 1.0 0 0 in
         node <- make_ChNodeFEAxyzD position direction ;;
         AddNode m node ;;
         ret (beam_nodes ++ [node]))
      acc w
    = (Ok (acc ++ seq (List.length (nodes w)) n),
       with_new_nodes w m msh (new_nodes length N_nodes i n)).
Proof.
  induction n as [|n IH]; intros i acc w msh Hl Hm.
  - cbn [for_count seq]. rewrite app_nil_r. unfold ret.
    change (new_nodes length N_nodes i 0) with (@nil ChNodeFEAxyzD).
    now rewrite (with_new_nodes_nil w m msh Hm).
  - cbn [for_count]. unfold bind at 1. cbn zeta.
    rewrite (node_loop_turn length N_nodes m i acc w msh Hl Hm).
    set (w1 := with_new_nodes w m msh _).
    assert (Hl1 : locked w1 = false) by (destruct w; exact Hl).
    assert (Hm1 : store_get (meshes w1) m
                  = Some (mkMesh (mesh_nodes msh ++ [List.length (nodes w)])
                                 (mesh_elements msh))).
    { destruct w; cbn in *. apply (store_get_set _ _ _ _ Hm). }
    rewrite (IH (i + 1)%Z _ w1 _ Hl1 Hm1).
    subst w1. rewrite with_new_nodes_cons, <- new_nodes_succ. f_equal.
    rewrite <- app_assoc. f_equal.
    destruct w; cbn. now rewrite length_app, Nat.add_1_r.
Qed.

(** X1.  The node loop (lines 94 to 111), for any length and any number of
    nodes, on any world whose topology is open and in which [mesh] names a
    mesh: it succeeds, creates [N_nodes] nodes (none when [N_nodes] is
    negative) with the positions of lines 96 to 98 and direction (1, 0, 0),
    registers them in the mesh in order of creation, returns their handles
    in the same order, and changes nothing else. *)
Theorem create_nodes_spec (length : float) (N_nodes : Z) (m : handle)
        (w : World) (msh : ChMesh) :
  locked w = false ->
  store_get (meshes w) m = Some msh ->
  create_nodes length N_nodes m w
  = (Ok (seq (List.length (nodes w)) (Z.to_nat N_nodes)),
     with_new_nodes w m msh (new_nodes length N_nodes 0 (Z.to_nat N_nodes))).
Proof.
  intros Hl Hm. unfold create_nodes, for_range. rewrite Z.sub_0_r.
  now rewrite (node_loop_runs length N_nodes m _ 0%Z [] w msh Hl Hm).
Qed.

(** The node loop of a five-node cable of length 2 on a world that holds one
    registered mesh and nothing else. *)
Lemma create_nodes_spec_witness :
  create_nodes 2 5 0%nat (snd ((m <- make_ChMesh ;; Add_mesh m) empty_world))
  = (Ok (seq 0 5),
     with_new_nodes (snd ((m <- make_ChMesh ;; Add_mesh m) empty_world)) 0%nat
                    (mkMesh [] []) (new_nodes 2 5 0 5)).
Proof.
  apply (create_nodes_spec 2 5 0%nat
           (snd ((m <- make_ChMesh ;; Add_mesh m) empty_world)) (mkMesh [] [])).
  - reflexivity.
  - reflexivity.
Defined.

Lemma index_at {A} (v : list A) (k : nat) (a : A) :
  nth_error v k = Some a -> index v (Z.of_nat k) = ret a.
Proof.
  intros H. unfold index.
  destruct (Z.ltb_spec (Z.of_nat k) 0); [lia|]. now rewrite Nat2Z.id, H.
Qed.

Lemma index_next {A} (v : list A) (k : nat) (a : A) :
  nth_error v (S k) = Some a -> index v (Z.of_nat k + 1) = ret a.
Proof.
  intros H. replace (Z.of_nat k + 1)%Z with (Z.of_nat (S k)) by lia.
  now apply index_at.
Qed.

Lemma int_wrap_exact (z : Z) :
  (INT_MIN <= z <= INT_MAX)%Z -> int_wrap z = z.
Proof.
  unfold INT_MIN, INT_MAX, int_wrap. intros H.
  rewrite Z.mod_small by lia. lia.
Qed.

Lemma int_sub_exact (a b : Z) :
  (INT_MIN <= a - b <= INT_MAX)%Z -> int_sub a b = (a - b)%Z.
Proof. apply int_wrap_exact. Qed.

(** One turn of the element loop. *)
Lemma element_loop_turn (m s : handle) (bn : list handle) (k : nat)
      (a b : handle) (na nb : ChNodeFEAxyzD) (w : World) (msh : ChMesh)
      (sec : ChBeamSectionCable) :
  locked w = false ->
  store_get (meshes w) m = Some msh ->
  store_get (sections w) s = Some sec ->
  nth_error bn k = Some a ->
  nth_error bn (S k) = Some b ->
  store_get (nodes w) a = Some na ->
  store_get (nodes w) b = Some nb ->
  veqb (node_pos na) (node_pos nb) = false ->
  (element <- make_ChElementCableANCF ;;
   a <- index bn (Z.of_nat k) ;;
   b <- index bn (Z.of_nat k + 1) ;;
   SetNodes element a b ;;
   SetSection element s ;;
   AddElement m element) w
  = (Ok tt, with_new_elements w m msh bn s k 1).
Proof.
  intros Hl Hm Hs Hka Hkb Ha Hb Hv.
  rewrite (index_at bn k a Hka), (index_next bn k b Hkb).
  unfold with_new_elements, chain, chain_events. cbn [seq map flat_map app].
  rewrite !Nat.add_0_r.
  rewrite (nth_error_nth bn k O Hka), (nth_error_nth bn (S k) O Hkb).
  destruct w as [ns ss es bs ls ms sy ap h].
  revert Hl Hm Hs Ha Hb. run_calls. intros Hl Hm Hs Ha Hb.
  destruct (phase sy) eqn:Hp; try discriminate Hl.
  rewrite store_get_new, Ha, Hb, Hv. cbv beta iota.
  rewrite store_set_new, store_get_new, Hs. cbv beta iota.
  rewrite store_set_new, Hp. cbv beta iota.
  rewrite Hm, store_get_new. cbv beta iota.
  cbn [el_nodes el_section mesh_nodes mesh_elements].
  rewrite <- app_assoc. reflexivity.
Qed.

Lemma chain_succ (bn : list handle) (s : handle) (k n : nat) :
  chain bn s k (S n) = chain bn s k 1 ++ chain bn s (S k) n.
Proof.
  unfold chain. cbn [seq map app]. f_equal.
  rewrite <- seq_shift, map_map. apply map_ext. intros j.
  now rewrite !Nat.add_succ_r.
Qed.

Lemma chain_events_succ (m : handle) (bn : list handle) (s : handle)
      (fe k n : nat) :
  chain_events m bn s fe k (S n)
  = chain_events m bn s fe k 1 ++ chain_events m bn s (S fe) (S k) n.
Proof.
  unfold chain_events. cbn [seq flat_map app]. do 2 f_equal.
  rewrite <- seq_shift, !flat_map_concat_map, map_map. f_equal.
  apply map_ext. intros j. now rewrite !Nat.add_succ_r.
Qed.

Lemma with_new_elements_nil (w : World) (m : handle) (msh : ChMesh)
      (bn : list handle) (s : handle) (k : nat) :
  store_get (meshes w) m = Some msh -> with_new_elements w m msh bn s k 0 = w.
Proof.
  intros Hm. destruct w as [ns ss es bs ls ms sy ap h].
  unfold with_new_elements, chain, chain_events; cbn in *. rewrite !app_nil_r.
  destruct msh as [mn me]; cbn. now rewrite (store_set_same ms m _ Hm).
Qed.

Lemma with_new_elements_cons (w : World) (m : handle) (msh : ChMesh)
      (bn : list handle) (s : handle) (k n : nat) :
  with_new_elements (with_new_elements w m msh bn s k 1) m
                    (mkMesh (mesh_nodes msh)
                            (mesh_elements msh ++ [List.length (elements w)]))
                    bn s (S k) n
  = with_new_elements w m msh bn s k (S n).
Proof.
  destruct w as [ns ss es bs ls ms sy ap h]. unfold with_new_elements.
  cbn [nodes sections elements bodies links meshes system application history
       mesh_nodes mesh_elements].
  rewrite store_set_twice, (chain_succ bn s k n),
    (chain_events_succ m bn s (List.length es) k n), <- !app_assoc.
  replace (List.length (es ++ chain bn s k 1)) with (S (List.length es))
    by (rewrite length_app; cbn; lia).
  reflexivity.
Qed.

(** The element loop from any turn on. *)
Lemma element_loop_runs (m s : handle) (bn : list handle)
      (sec : ChBeamSectionCable) :
  forall (n k : nat) (w : World) (msh : ChMesh),
    locked w = false ->
    store_get (meshes w) m = Some msh ->
    store_get (sections w) s = Some sec ->
    (n = 0 \/ k + n < List.length bn)%nat ->
    (forall j a b,
        nth_error bn j = Some a -> nth_error bn (S j) = Some b ->
        exists na nb, store_get (nodes w) a = Some na
                      /\ store_get (nodes w) b = Some nb
                      /\ veqb (node_pos na) (node_pos nb) = false) ->
    for_count n (Z.of_nat k)
      (fun ie _ =>
         element <- make_ChElementCableANCF ;;
         a <- index bn ie ;;
         b <- index bn (ie + 1) ;;
         SetNodes element a b ;;
         SetSection element s ;;
         AddElement m element)
      tt w
    = (Ok tt, with_new_elements w m msh bn s k n).
Proof.
  induction n as [|n IH]; intros k w msh Hl Hm Hs Hk Hpairs.
  - cbn [for_count]. unfold ret. now rewrite (with_new_elements_nil w m msh bn s k Hm).
  - destruct Hk as [Hk|Hk]; [discriminate|].
    destruct (nth_error bn k) as [a|] eqn:Hka;
      [|apply nth_error_None in Hka; lia].
    destruct (nth_error bn (S k)) as [b|] eqn:Hkb;
      [|apply nth_error_None in Hkb; lia].
    destruct (Hpairs k a b Hka Hkb) as (na & nb & Ha & Hb & Hv).
    cbn [for_count]. unfold bind at 1.
    rewrite (element_loop_turn m s bn k a b na nb w msh sec
               Hl Hm Hs Hka Hkb Ha Hb Hv).
    set (w1 := with_new_elements w m msh bn s k 1).
    replace (Z.of_nat k + 1)%Z with (Z.of_nat (S k)) by lia.
    rewrite (IH (S k) w1
               (mkMesh (mesh_nodes msh)
                       (mesh_elements msh ++ [List.length (elements w)]))).
    + subst w1. now rewrite with_new_elements_cons.
    + destruct w; exact Hl.
    + destruct w; cbn in *. apply (store_get_set _ _ _ _ Hm).
    + destruct w; exact Hs.
    + lia.
    + destruct w; exact Hpairs.
Qed.

(** X2.  The element loop (lines 122 to 134), for any number of nodes
    above [INT_MIN] (where the bound [N_nodes - 1] does not overflow), on
    any world whose topology is open, over a [beam_nodes] of [N_nodes]
    entries whose neighbours are nodes at positions that compare
    different: no index leaves the vector, the loop succeeds and makes
    [N_nodes - 1] elements (none when [N_nodes] is 1 or less), element [k]
    joins entries [k] and [k + 1] of [beam_nodes] and holds the handle of the
    one section, every element is registered in the mesh in order, and
    nothing else changes. *)
Theorem create_elements_spec (N_nodes : Z) (m s : handle) (bn : list handle)
        (w : World) (msh : ChMesh) (sec : ChBeamSectionCable) :
  (INT_MIN < N_nodes <= INT_MAX)%Z ->
  locked w = false ->
  store_get (meshes w) m = Some msh ->
  store_get (sections w) s = Some sec ->
  List.length bn = Z.to_nat N_nodes ->
  (forall j a b,
      nth_error bn j = Some a -> nth_error bn (S j) = Some b ->
      exists na nb, store_get (nodes w) a = Some na
                    /\ store_get (nodes w) b = Some nb
                    /\ veqb (node_pos na) (node_pos nb) = false) ->
  create_elements N_nodes m s bn w
  = (Ok tt, with_new_elements w m msh bn s 0 (Z.to_nat (N_nodes - 1))).
Proof.
  intros Hint Hl Hm Hs Hlen Hpairs. unfold create_elements, for_range.
  rewrite (int_sub_exact N_nodes 1), Z.sub_0_r by (unfold INT_MIN, INT_MAX in *; lia).
  apply (element_loop_runs m s bn sec _ 0%nat w msh Hl Hm Hs); [|exact Hpairs].
  rewrite Hlen. lia.
Qed.

(** The element loop over the three nodes of [three_nodes]. *)
Lemma create_elements_spec_witness :
  create_elements 3 0%nat 0%nat [0; 1; 2]%nat three_nodes
  = (Ok tt,
     with_new_elements three_nodes 0%nat (mkMesh [0; 1; 2]%nat [])
                       [0; 1; 2]%nat 0%nat 0%nat (Z.to_nat (3 - 1))).
Proof.
  apply (create_elements_spec 3 0%nat 0%nat [0; 1; 2]%nat three_nodes
           (mkMesh [0; 1; 2]%nat []) (mkSection None None None)).
  - unfold INT_MIN, INT_MAX. lia.
  - vm_compute. reflexivity.
  - vm_compute. reflexivity.
  - vm_compute. reflexivity.
  - vm_compute. reflexivity.
  - intros j a b Hj Hb. destruct j as [|[|j]].
    + injection Hj as <-. injection Hb as <-.
      exists (mkNode (position 2 3 0) (V 1 0 0) false),
             (mkNode (position 2 3 1) (V 1 0 0) false).
      split; [vm_compute; reflexivity|].
      split; vm_compute; reflexivity.
    + injection Hj as <-. injection Hb as <-.
      exists (mkNode (position 2 3 1) (V 1 0 0) false),
             (mkNode (position 2 3 2) (V 1 0 0) false).
      split; [vm_compute; reflexivity|].
      split; vm_compute; reflexivity.
    + destruct j; discriminate Hb.
Defined.

(** ** Cables of no node and of one node *)

Lemma loop_bound_wraps : int_sub INT_MIN 1 = INT_MAX.
Proof. reflexivity. Qed.

(** From 0 down to just above [INT_MIN]: neither loop runs and line 155
    indexes an empty vector. *)
Lemma setup_of_no_node_above (length : float) (N_nodes : Z) :
  (INT_MIN < N_nodes <= 0)%Z ->
  fst (setup_of length N_nodes empty_world) = Err Stuck /\
  nodes (snd (setup_of length N_nodes empty_world)) = [] /\
  sys_links (system (snd (setup_of length N_nodes empty_world))) = [] /\
  elements (snd (setup_of length N_nodes empty_world)) = [] /\
  sys_bodies (system (snd (setup_of length N_nodes empty_world))) = [0%nat].
Proof.
  intros H. unfold setup_of, create_elements.
  rewrite (int_sub_exact N_nodes 1) by (unfold INT_MIN, INT_MAX in *; lia).
  destruct N_nodes as [|p|p]; [|lia|]; clear H; vm_compute; tauto.
Qed.

(** At [INT_MIN]: the bound of the element loop wraps to [INT_MAX], the
    loop starts, and its first turn indexes the empty vector at line 127. *)
Lemma setup_of_no_node_at_INT_MIN (length : float) :
  fst (setup_of length INT_MIN empty_world) = Err Stuck /\
  nodes (snd (setup_of length INT_MIN empty_world)) = [] /\
  sys_links (system (snd (setup_of length INT_MIN empty_world))) = [] /\
  elements (snd (setup_of length INT_MIN empty_world)) = [mkElement None None] /\
  bodies (snd (setup_of length INT_MIN empty_world)) = [].
Proof.
  unfold setup_of, create_elements, for_range.
  rewrite loop_bound_wraps.
  replace (Z.to_nat (INT_MAX - 0)) with (S (Z.to_nat 2147483646))
    by (unfold INT_MAX; lia).
  generalize (Z.to_nat 2147483646). intros n.
  vm_compute. tauto.
Qed.

(** X3.  With [N_nodes] at 0 or below, for any length, the driver makes no
    node, ends in what C++ leaves undefined and has put no constraint in
    the system.  Above [INT_MIN] neither loop runs and line 155 reads
    [beam_nodes[0]] of an empty vector, with the truss already in the
    system.  At [INT_MIN] the bound [N_nodes - 1] of the element loop
    wraps to [INT_MAX]: the loop starts, constructs an element and reads
    [beam_nodes[0]] of the empty vector at line 127, before any body is
    made. *)
Theorem setup_of_no_node (length : float) (N_nodes : Z) :
  (INT_MIN <= N_nodes <= 0)%Z ->
  fst (setup_of length N_nodes empty_world) = Err Stuck /\
  nodes (snd (setup_of length N_nodes empty_world)) = [] /\
  sys_links (system (snd (setup_of length N_nodes empty_world))) = [] /\
  ((INT_MIN < N_nodes)%Z ->
   elements (snd (setup_of length N_nodes empty_world)) = [] /\
   sys_bodies (system (snd (setup_of length N_nodes empty_world))) = [0%nat]) /\
  (N_nodes = INT_MIN ->
   elements (snd (setup_of length N_nodes empty_world)) = [mkElement None None] /\
   bodies (snd (setup_of length N_nodes empty_world)) = []).
Proof.
  intros H. destruct (Z.eq_dec N_nodes INT_MIN) as [->|Hne].
  - destruct (setup_of_no_node_at_INT_MIN length) as (A & B & C & D & E).
    refine (conj A (conj B (conj C (conj _ _)))); [lia|auto].
  - assert (H' : (INT_MIN < N_nodes <= 0)%Z) by lia.
    destruct (setup_of_no_node_above length N_nodes H') as (A & B & C & D & E).
    refine (conj A (conj B (conj C (conj _ _)))); [auto|contradiction].
Qed.

Lemma setup_of_no_node_witness :
  fst (setup_of 1.2 0 empty_world) = Err Stuck /\
  nodes (snd (setup_of 1.2 0 empty_world)) = [] /\
  sys_links (system (snd (setup_of 1.2 0 empty_world))) = [] /\
  ((INT_MIN < 0)%Z ->
   elements (snd (setup_of 1.2 0 empty_world)) = [] /\
   sys_bodies (system (snd (setup_of 1.2 0 empty_world))) = [0%nat]) /\
  (0%Z = INT_MIN ->
   elements (snd (setup_of 1.2 0 empty_world)) = [mkElement None None] /\
   bodies (snd (setup_of 1.2 0 empty_world)) = []).
Proof. apply (setup_of_no_node 1.2 0). unfold INT_MIN. lia. Defined.

Lemma mul_nan (x : float) : x * nan = nan.
Proof.
  apply Prim2SF_inj. rewrite FloatAxioms.mul_spec.
  change (Prim2SF nan) with S754_nan.
  unfold SF64mul, SFmul. now destruct (Prim2SF x).
Qed.

(** Line 96 with [N_nodes] at 1: the quotient is 0 / 0. *)
Lemma position_of_single_node (length : float) :
  position length 1 0 = V nan 0.5 0.
Proof.
  unfold position.
  change (double 0 / double (1 - 1)) with nan. now rewrite mul_nan.
Qed.

(** X4.  With [N_nodes] at 1, for any length: the driver runs to line 272
    without error, but the one node it makes has no x coordinate, since line
    96 divides 0 by [double(N_nodes - 1)] = 0 and the product with the
    length is NaN; no element is made, and both constraints hold the same
    node, one joining it to the truss and one to the cylinder, whose x is
    NaN as well. *)
Theorem setup_of_one_node (length : float) :
  fst (setup_of length 1 empty_world)
  = Ok (mkLocals 0 0 [0%nat] 0 0 1 1)%nat /\
  nodes (snd (setup_of length 1 empty_world))
  = [mkNode (V nan 0.5 0) (V 1 0 0) false] /\
  elements (snd (setup_of length 1 empty_world)) = [] /\
  bodies_on (snd (setup_of length 1 empty_world)) 0%nat = [0; 1]%nat /\
  option_map body_pos (store_get (bodies (snd (setup_of length 1 empty_world))) 1%nat)
  = Some (V nan 0.45 0).
Proof.
  cbv -[position PrimFloat.add PrimFloat.sub PrimFloat.eqb].
  rewrite !position_of_single_node.
  vm_compute. tauto.
Qed.

(** ** Cables of 2 to 128 nodes *)

(** X5.  With the length of line 92 and any [N_nodes] from 2 to 128, in
    doubles: the driver runs to line 272 without error (no two neighbours
    coincide), [beam_nodes] holds [N_nodes] handles in creation order, there
    are [N_nodes - 1] elements, the first node is exactly at (0, 0.5, 0)
    and the last exactly at (1.2, 0.5, 0), the first node is joined to the
    truss only and the last to the cylinder only. *)
Theorem setup_of_builds (N_nodes : Z) :
  (2 <= N_nodes <= 128)%Z ->
  fst (setup_of 1.2 N_nodes empty_world)
  = Ok (mkLocals 0 0 (seq 0 (Z.to_nat N_nodes)) 0 0 1 1)%nat /\
  List.length (elements (snd (setup_of 1.2 N_nodes empty_world)))
  = Z.to_nat (N_nodes - 1) /\
  node_position (snd (setup_of 1.2 N_nodes empty_world)) 0%nat
  = Some (V 0 0.5 0) /\
  node_position (snd (setup_of 1.2 N_nodes empty_world)) (Z.to_nat (N_nodes - 1))
  = Some (V 1.2 0.5 0) /\
  bodies_on (snd (setup_of 1.2 N_nodes empty_world)) 0%nat = [0%nat] /\
  bodies_on (snd (setup_of 1.2 N_nodes empty_world)) (Z.to_nat (N_nodes - 1))
  = [1%nat].
Proof.
  intros H.
  assert (E : exists k, N_nodes = Z.of_nat k /\ (2 <= k <= 128)%nat)
    by (exists (Z.to_nat N_nodes); lia).
  destruct E as (k & -> & Hk). clear H.
  do 2 (destruct k as [|k]; [lia|]).
  do 127 (destruct k as [|k];
         [clear Hk; do 5 (split; [by_run|]); by_run|]).
  lia.
Qed.

Lemma setup_of_builds_witness :
  fst (setup_of 1.2 7 empty_world)
  = Ok (mkLocals 0 0 (seq 0 (Z.to_nat 7)) 0 0 1 1)%nat /\
  List.length (elements (snd (setup_of 1.2 7 empty_world))) = Z.to_nat (7 - 1) /\
  node_position (snd (setup_of 1.2 7 empty_world)) 0%nat = Some (V 0 0.5 0) /\
  node_position (snd (setup_of 1.2 7 empty_world)) (Z.to_nat (7 - 1))
  = Some (V 1.2 0.5 0) /\
  bodies_on (snd (setup_of 1.2 7 empty_world)) 0%nat = [0%nat] /\
  bodies_on (snd (setup_of 1.2 7 empty_world)) (Z.to_nat (7 - 1)) = [1%nat].
Proof. apply (setup_of_builds 7). lia. Defined.

(** * The render loop *)

Lemma DoStep_solves (integrate : World -> option Kinematics) (w : World)
      (k : Kinematics) :
  steppable w -> integrate w = Some k ->
  DoStep integrate w
  = (Ok tt, log EvDoStep
              (with_system (sys_with_phase Stepping (system w)) (advance k w))).
Proof.
  intros Hp Hk. unfold DoStep, bind, get.
  destruct Hp as [-> | ->]; now rewrite Hk.
Qed.

Lemma DoStep_singular (integrate : World -> option Kinematics) (w : World) :
  steppable w -> integrate w = None ->
  DoStep integrate w
  = (Err SingularSystem, with_system (sys_with_phase Failed (system w)) w).
Proof.
  intros Hp Hk. unfold DoStep, bind, get.
  destruct Hp as [-> | ->]; now rewrite Hk.
Qed.

Lemma for_count_split {T} (body : Z -> T -> M T) :
  forall (a b : nat) (i : Z) (acc : T) (w : World),
    for_count (a + b) i body acc w
    = match for_count a i body acc w with
      | (Ok acc', w') => for_count b (i + Z.of_nat a) body acc' w'
      | (Err e, w') => (Err e, w')
      end.
Proof.
  induction a as [|a IH]; intros b i acc w.
  - cbn. now rewrite Z.add_0_r.
  - cbn [Nat.add for_count]. unfold bind.
    destruct (body i acc w) as [[acc1|e] w1]; [|reflexivity].
    rewrite IH. now replace (i + 1 + Z.of_nat a)%Z with (i + Z.of_nat (S a))%Z by lia.
Qed.

Lemma main_unfold (integrate : World -> option Kinematics) (frames : nat) :
  main integrate frames empty_world
  = match for_count frames 0%Z (fun _ _ => DoStep integrate) tt
            (snd (SetupInitial built)) with
    | (Ok _, w2) => (Ok 0%Z, w2)
    | (Err e, w2) => (Err e, w2)
    end.
Proof.
  unfold main, render_loop. unfold bind at 1. rewrite setup_runs.
  unfold bind at 1. rewrite SetupInitial_eq. unfold bind. cbn [snd].
  now destruct (for_count frames 0%Z _ tt _) as [[[]|e] w2].
Qed.

Lemma steps_all_solve (integrate : World -> option Kinematics) :
  (forall w, integrate w <> None) ->
  forall (n : nat) (i : Z) (w : World),
    steppable w ->
    fst (for_count n i (fun _ _ => DoStep integrate) tt w) = Ok tt /\
    history (snd (for_count n i (fun _ _ => DoStep integrate) tt w))
    = history w ++ repeat EvDoStep n /\
    phase (system (snd (for_count n i (fun _ _ => DoStep integrate) tt w)))
    = match n with O => phase (system w) | S _ => Stepping end.
Proof.
  intros Hs. induction n as [|n IH]; intros i w Hp.
  - cbn. now rewrite app_nil_r.
  - cbn [for_count]. unfold bind.
    destruct (integrate w) as [k|] eqn:Hk; [|now destruct (Hs w)].
    rewrite (DoStep_solves integrate w k Hp Hk).
    set (w1 := log EvDoStep _).
    assert (Hp1 : steppable w1) by (right; now destruct w as [? ? ? ? ? ? [] ? ?]).
    destruct (IH (i + 1)%Z w1 Hp1) as (Hf & Hh & Hph).
    split; [exact Hf|]. split.
    + rewrite Hh. subst w1. destruct w; cbn. now rewrite <- app_assoc.
    + rewrite Hph. destruct n; [|reflexivity].
      subst w1. now destruct w as [? ? ? ? ? ? [] ? ?].
Qed.

Lemma steps_ok_steppable (integrate : World -> option Kinematics) :
  forall (n : nat) (i : Z) (w : World),
    steppable w ->
    fst (for_count n i (fun _ _ => DoStep integrate) tt w) = Ok tt ->
    steppable (snd (for_count n i (fun _ _ => DoStep integrate) tt w)).
Proof.
  induction n as [|n IH]; intros i w Hp; [intros _; exact Hp|].
  cbn [for_count]. unfold bind.
  destruct (integrate w) as [k|] eqn:Hk.
  - rewrite (DoStep_solves integrate w k Hp Hk). apply IH.
    right. now destruct w as [? ? ? ? ? ? [] ? ?].
  - rewrite (DoStep_singular integrate w Hp Hk). discriminate.
Qed.

(** X6.  If the engine core solves every step, [main] returns 0 for any
    number of frames, exactly one step per frame takes effect after the
    single finalize, and the system ends [Stepping] (or [Finalized] when the
    window closes before the first frame). *)
Theorem main_returns_zero (integrate : World -> option Kinematics)
        (frames : nat) :
  (forall w, integrate w <> None) ->
  fst (main integrate frames empty_world) = Ok 0%Z /\
  history (snd (main integrate frames empty_world))
  = history built ++ EvSetupInitial :: repeat EvDoStep frames /\
  phase (system (snd (main integrate frames empty_world)))
  = match frames with O => Finalized | S _ => Stepping end.
Proof.
  intros Hs. rewrite main_unfold.
  assert (Hp : steppable (snd (SetupInitial built))) by (left; by_run).
  destruct (steps_all_solve integrate Hs frames 0%Z _ Hp) as (Hf & Hh & Hph).
  rewrite SetupInitial_history, <- app_assoc in Hh.
  assert (Hp0 : phase (system (snd (SetupInitial built))) = Finalized) by by_run.
  rewrite Hp0 in Hph.
  destruct (for_count frames 0%Z _ tt _) as [[[]|e] w2]; cbn [fst snd] in *;
    [|discriminate Hf].
  split; [reflexivity|]. split; [exact Hh|exact Hph].
Qed.

(** An engine core that always solves and moves nothing, and three frames. *)
Lemma main_returns_zero_witness :
  fst (main (fun _ => Some (mkKin [] [])) 3 empty_world) = Ok 0%Z /\
  history (snd (main (fun _ => Some (mkKin [] [])) 3 empty_world))
  = history built ++ EvSetupInitial :: repeat EvDoStep 3 /\
  phase (system (snd (main (fun _ => Some (mkKin [] [])) 3 empty_world)))
  = Stepping.
Proof.
  apply (main_returns_zero (fun _ => Some (mkKin [] [])) 3%nat).
  intros w. discriminate.
Defined.

(** X7.  If the first [j] steps solve and the engine core finds the system
    singular at the next one, with frames left to draw, [main] ends there
    with [SingularSystem] instead of returning 0: the world is the one the
    [j] steps left, marked [Failed], and no later frame steps it. *)
Theorem main_stops_at_singular_step (integrate : World -> option Kinematics)
        (frames j : nat) :
  (j < frames)%nat ->
  fst (for_count j 0%Z (fun _ _ => DoStep integrate) tt
                 (snd (SetupInitial built))) = Ok tt ->
  integrate (snd (for_count j 0%Z (fun _ _ => DoStep integrate) tt
                            (snd (SetupInitial built)))) = None ->
  main integrate frames empty_world
  = (Err SingularSystem,
     with_system
       (sys_with_phase Failed
          (system (snd (for_count j 0%Z (fun _ _ => DoStep integrate) tt
                                  (snd (SetupInitial built))))))
       (snd (for_count j 0%Z (fun _ _ => DoStep integrate) tt
                       (snd (SetupInitial built))))).
Proof.
  intros Hj Hok Hnone. rewrite main_unfold.
  replace frames with (j + S (frames - S j))%nat by lia.
  rewrite for_count_split.
  assert (Hp : steppable (snd (SetupInitial built))) by (left; by_run).
  pose proof (steps_ok_steppable integrate j 0%Z _ Hp Hok) as Hpj.
  destruct (for_count j 0%Z _ tt _) as [[[]|e] wj]; cbn [fst snd] in *;
    [|discriminate Hok].
  cbn [for_count]. unfold bind.
  now rewrite (DoStep_singular integrate wj Hpj Hnone).
Qed.

(** An engine core that finds the system singular at once, and two frames. *)
Lemma main_stops_at_singular_step_witness :
  main (fun _ => None) 2 empty_world
  = (Err SingularSystem,
     with_system
       (sys_with_phase Failed
          (system (snd (for_count 0 0%Z (fun _ _ => DoStep (fun _ => None)) tt
                                  (snd (SetupInitial built))))))
       (snd (for_count 0 0%Z (fun _ _ => DoStep (fun _ => None)) tt
                       (snd (SetupInitial built))))).
Proof.
  apply (main_stops_at_singular_step (fun _ => None) 2%nat 0%nat).
  - lia.
  - reflexivity.
  - reflexivity.
Defined.

(** * Sharing of nodes along the chain *)

Lemma chain_cons (bn : list handle) (s : handle) (k n : nat) :
  chain bn s k (S n)
  = mkElement (Some (nth k bn O, nth (S k) bn O)) (Some s) :: chain bn s (S k) n.
Proof.
  rewrite chain_succ. unfold chain at 1. cbn [seq map app].
  now rewrite Nat.add_0_r.
Qed.

(** A node that is none of entries [k] to [k + n] is at no end of the [n]
    elements from [k] on. *)
Lemma chain_skips (bn : list handle) (s h : handle) :
  forall (n k : nat),
    (forall j, (k <= j <= k + n)%nat -> nth j bn O <> h) ->
    filter (mentions h) (chain bn s k n) = [].
Proof.
  induction n as [|n IH]; intros k Hno; [reflexivity|].
  rewrite chain_cons. cbn [filter]. unfold mentions at 1. cbn [el_nodes].
  destruct (Nat.eqb_spec (nth k bn O) h) as [E|_];
    [exfalso; apply (Hno k); [lia|exact E]|].
  destruct (Nat.eqb_spec (nth (S k) bn O) h) as [E|_];
    [exfalso; apply (Hno (S k)); [lia|exact E]|].
  cbn [orb]. apply IH. intros j Hj. apply Hno. lia.
Qed.

(** The node at entry [k] is at an end of one element at most from [k] on. *)
Lemma chain_first_once (bn : list handle) (s : handle) (n k : nat) :
  NoDup bn -> (k + n < List.length bn)%nat ->
  (List.length (filter (mentions (nth k bn O)) (chain bn s k n)) <= 1)%nat.
Proof.
  intros Hnd Hk. destruct n as [|n]; [cbn; lia|].
  rewrite chain_cons. cbn [filter].
  rewrite (chain_skips bn s (nth k bn O) n (S k)).
  - destruct (mentions _ _); cbn; lia.
  - intros j Hj E.
    assert (j = k); [|lia].
    apply (proj1 (NoDup_nth bn O) Hnd); [lia|lia|exact E].
Qed.

Lemma chain_shares_twice (bn : list handle) (s h : handle) :
  NoDup bn ->
  forall (n k : nat),
    (n = 0 \/ k + n < List.length bn)%nat ->
    (List.length (filter (mentions h) (chain bn s k n)) <= 2)%nat.
Proof.
  intros Hnd. induction n as [|n IH]; intros k Hk; [cbn; lia|].
  destruct Hk as [Hk|Hk]; [discriminate|].
  rewrite chain_cons. cbn [filter]. unfold mentions at 1. cbn [el_nodes].
  destruct (Nat.eqb_spec (nth k bn O) h) as [E|_].
  - cbn [orb]. subst h.
    pose proof (chain_first_once bn s (S n) k Hnd Hk) as H1.
    rewrite chain_cons in H1. cbn [filter] in H1.
    unfold mentions at 1 in H1. cbn [el_nodes] in H1.
    rewrite Nat.eqb_refl in H1. cbn [orb] in H1. cbn [List.length] in *. lia.
  - destruct (Nat.eqb_spec (nth (S k) bn O) h) as [E|_]; cbn [orb].
    + subst h. cbn [List.length].
      pose proof (chain_first_once bn s n (S k) Hnd ltac:(lia)). lia.
    + apply IH. destruct n; [now left|right; lia].
Qed.

(** X8.  In the chain that the element loop makes over the handles the node
    loop returns (consecutive handles from [base] on), for any number of
    nodes: no node is at an end of more than two elements. *)
Theorem chain_shares_each_node_twice_at_most
        (N_nodes : Z) (base s h : handle) :
  (List.length
     (filter (mentions h)
             (chain (seq base (Z.to_nat N_nodes)) s 0 (Z.to_nat (N_nodes - 1))))
   <= 2)%nat.
Proof.
  apply chain_shares_twice; [apply seq_NoDup|].
  rewrite length_seq. lia.
Qed.
